(** * Weatherly: the page scripts, embedded and verified

    The repository ships two near-duplicate page scripts: [static/js/main.js]
    and a "minimal design" variant.  Both wire event listeners to page elements,
    and share a toast utility driven by browser timers.

    The embedding keeps the scripts' shape:
    - JavaScript strings that come from the user or are shown to the user are
      sequences of UTF-16 code units ([jsstr]); identifiers, class names, CSS
      properties and URLs, which are ASCII in the scripts, are [string]s;
    - elements live in an arena ([heap], indexed by allocation order) and the
      document is a tree of arena indices rooted at [document.body];
    - script code is written in a state-and-exception monad [M] over the
      [World]: a JavaScript exception keeps the mutations made before it;
    - closures handed to [addEventListener] and [setTimeout] are
      defunctionalised ([Listener], [Task]) together with the variables they
      capture;
    - the browser is a clock with a timer queue, an event dispatcher and an
      intersection observer; timers fire at their due time, earliest first,
      in scheduling order among equals; an event runs the listeners of its
      target in registration order ([dispatch]), and an event that bubbles
      runs those of the target, of its ancestors, of the document and of the
      window ([bubble]);
    - a page is [loaded] by running what the script does when it is loaded
      and then its [DOMContentLoaded] listener on the page as [parsed].

    Not embedded: [console.log], [highlightRiskLevels] and the alert auto-hide
    block of the minimal script (it calls into the external Bootstrap library).
    HTML assigned through [innerHTML] is kept as text and not parsed, and
    [focus()] is taken to succeed on the element it is called on. *)

From Stdlib Require Import NArith Ascii String List Bool Lia.
From stdpp Require Import base option list gmap strings pretty.

Local Open Scope string_scope.
Local Open Scope list_scope.

(** ** JavaScript strings *)

Module JsString.

(** A string value is a sequence of UTF-16 code units; [.length] counts
    them. *)
Definition jsstr : Type := list N.

(** An ASCII literal of the script. *)
Definition lit (s : string) : jsstr :=
  map N_of_ascii (list_ascii_of_string s).

(** WhiteSpace and LineTerminator code points of ECMAScript, the ones
    [String.prototype.trim] strips (all of them are in the BMP). *)
Definition is_white_space (c : N) : bool :=
  ((c =? 0x0009) || (c =? 0x000A) || (c =? 0x000B) || (c =? 0x000C)
   || (c =? 0x000D) || (c =? 0x0020) || (c =? 0x00A0) || (c =? 0x1680)
   || ((0x2000 <=? c) && (c <=? 0x200A))
   || (c =? 0x2028) || (c =? 0x2029) || (c =? 0x202F) || (c =? 0x205F)
   || (c =? 0x3000) || (c =? 0xFEFF))%N.

Fixpoint trimStart (s : jsstr) : jsstr :=
  match s with
  | c :: r => if is_white_space c then trimStart r else s
  | [] => []
  end.

Definition trimEnd (s : jsstr) : jsstr := rev (trimStart (rev s)).

Definition trim (s : jsstr) : jsstr := trimEnd (trimStart s).

(** Template-literal interpolation of a number: its decimal digits. *)
Definition of_nat (n : nat) : jsstr := lit (pretty n).

(** [s] contains [sub] (the [*=] attribute selector). *)
Fixpoint has_substr (sub s : string) : bool :=
  String.prefix sub s
  || match s with
     | String _ r => has_substr sub r
     | EmptyString => false
     end.

(** Tokens of a [class] attribute: maximal runs of non-space characters. *)
Definition is_ascii_space (a : ascii) : bool :=
  let n := N_of_ascii a in
  ((n =? 9) || (n =? 10) || (n =? 12) || (n =? 13) || (n =? 32))%N.

Fixpoint tokens_go (cur : string) (s : string) : list string :=
  match s with
  | EmptyString => if decide (cur = "") then [] else [cur]
  | String a r =>
      if is_ascii_space a
      then (if decide (cur = "") then [] else [cur]) ++ tokens_go "" r
      else tokens_go (cur ++ String a EmptyString) r
  end.

Definition tokens (s : string) : list string :=
  remove_dups (tokens_go "" s).

End JsString.
Import JsString.

(** ** Elements and the document *)

(** The properties of an element that the scripts read or write. *)
Record Element := mkElement {
  tagName : string;                 (* local name, lower case *)
  ident : string;                   (* the [id] attribute *)
  classes : list string;            (* [classList] *)
  style : gmap string string;       (* inline style, by property *)
  innerHTML : jsstr;
  textContent : jsstr;
  value : jsstr;
  disabled : bool;
  attr_href : option string;        (* the [href] attribute as written *)
  href : string                     (* the resolved [href] property *)
}.

Definition blank (tag : string) : Element :=
  mkElement tag "" [] ∅ [] [] [] false None "".

Definition with_classes (cs : list string) (e : Element) : Element :=
  mkElement (tagName e) (ident e) cs (style e) (innerHTML e) (textContent e)
            (value e) (disabled e) (attr_href e) (href e).

Definition with_style (k v : string) (e : Element) : Element :=
  mkElement (tagName e) (ident e) (classes e) (<[k := v]> (style e))
            (innerHTML e) (textContent e) (value e) (disabled e)
            (attr_href e) (href e).

Definition with_innerHTML (h : jsstr) (e : Element) : Element :=
  mkElement (tagName e) (ident e) (classes e) (style e) h (textContent e)
            (value e) (disabled e) (attr_href e) (href e).

Definition with_disabled (b : bool) (e : Element) : Element :=
  mkElement (tagName e) (ident e) (classes e) (style e) (innerHTML e)
            (textContent e) (value e) b (attr_href e) (href e).

(** [classList.add] and [classList.remove] on the ordered token set. *)
Definition class_add (c : string) (e : Element) : Element :=
  if bool_decide (c ∈ classes e) then e
  else with_classes (classes e ++ [c]) e.

Definition class_remove (c : string) (e : Element) : Element :=
  with_classes (filter (λ x, x ≠ c) (classes e)) e.

Definition has_class (c : string) (e : Element) : bool :=
  bool_decide (c ∈ classes e).

(** The document: a tree of arena indices. *)
#[local] Set Warnings "-register-all".
Inductive Tree := Node (nid : nat) (kids : list Tree).

Definition root_id (t : Tree) : nat := match t with Node i _ => i end.
Definition children (t : Tree) : list Tree := match t with Node _ ks => ks end.

(** Document order, each element with its ancestors (nearest first). *)
Fixpoint walk (anc : list nat) (t : Tree) : list (nat * list nat) :=
  match t with
  | Node i ks => (i, anc) :: flat_map (walk (i :: anc)) ks
  end.

(** Every element with the list of its element children, in order. *)
Fixpoint families (t : Tree) : list (nat * list nat) :=
  match t with
  | Node i ks => (i, map root_id ks) :: flat_map families ks
  end.

(** The subtree rooted at element [i]. *)
Fixpoint subtree (i : nat) (t : Tree) : option Tree :=
  match t with
  | Node j ks =>
      if decide (i = j) then Some t
      else head (omap (subtree i) ks)
  end.

Fixpoint after {A} `{EqDecision A} (x : A) (l : list A) : option A :=
  match l with
  | a :: r => if decide (a = x) then head r else after x r
  | [] => None
  end.

(** ** Selectors *)

Inductive selector :=
  | SClass (c : string)                   (* .c *)
  | STagAttrHas (tag sub : string)        (* tag[href*="sub"] *)
  | SDesc (a b : selector)                (* a b *)
  | SOr (a b : selector).                 (* a, b *)

Section Matching.
Variable heap : list Element.

Definition elem_at (i : nat) : Element := default (blank "") (heap !! i).

Fixpoint any_suffix (f : nat → list nat → bool) (anc : list nat) : bool :=
  match anc with
  | a :: r => f a r || any_suffix f r
  | [] => false
  end.

Fixpoint matches (s : selector) (i : nat) (anc : list nat) : bool :=
  match s with
  | SClass c => has_class c (elem_at i)
  | STagAttrHas tag sub =>
      bool_decide (tagName (elem_at i) = tag)
      && match attr_href (elem_at i) with
         | Some h => has_substr sub h
         | None => false
         end
  | SDesc a b => matches b i anc && any_suffix (matches a) anc
  | SOr a b => matches a i anc || matches b i anc
  end.

Definition select (s : selector) (l : list (nat * list nat)) : list nat :=
  map fst (filter (λ p, matches s p.1 p.2 = true) l).
End Matching.

(** ** The world: page, browser and user *)

Inductive Target := TWindow | TDocument | TElem (i : nat).

Global Instance Target_eq_dec : EqDecision Target.
Proof. solve_decision. Defined.

(** The fields of an event object that the scripts read. *)
Record EventData := mkEvent {
  ctrlKey : bool;
  metaKey : bool;
  key : string
}.

Definition plain_event : EventData := mkEvent false false "".

(** Closures passed to [addEventListener], with what they capture. *)
Inductive Listener :=
  | OnScrollNavbar (navbar : option nat)
  | OnSubmitTask
  | OnInputTask
  | OnMouseEnterTask
  | OnMouseLeaveTask
  | OnToggleClick
  | OnDeleteClick
  | OnLocationSubmit
  | OnKeydown
  | OnEmojiEnter
  | OnEmojiLeave.

(** Closures passed to [setTimeout], with what they capture. *)
Inductive Task :=
  | ToastShow (toast : nat)
  | ToastHide (toast : nat)
  | ToastRemove (toast : nat)
  | Navigate (link : nat)
  | AnimateWeatherEmoji.

(** Modal dialogs shown to the user. *)
Inductive Dialog :=
  | Alert (text : jsstr)
  | Confirm (text : jsstr) (answer : bool).

Record World := mkWorld {
  heap : list Element;                         (* every element ever created *)
  doc : Tree;                                  (* rooted at document.body *)
  focus : option nat;                          (* document.activeElement *)
  location : string;                           (* window.location.href *)
  scrollY : N;
  now : N;                                     (* milliseconds *)
  timers : list (N * Task);                    (* due time, callback *)
  listeners : list (Target * string * Listener);
  observed : list nat;                         (* IntersectionObserver targets *)
  answers : list bool;                         (* the user's coming answers *)
  dialogs : list Dialog;                       (* dialogs shown so far *)
  prevented : bool                             (* defaultPrevented of the event *)
}.

Definition set_heap (f : list Element → list Element) (w : World) : World :=
  mkWorld (f (heap w)) (doc w) (focus w) (location w) (scrollY w) (now w)
          (timers w) (listeners w) (observed w) (answers w) (dialogs w)
          (prevented w).
Definition set_doc (d : Tree) (w : World) : World :=
  mkWorld (heap w) d (focus w) (location w) (scrollY w) (now w)
          (timers w) (listeners w) (observed w) (answers w) (dialogs w)
          (prevented w).
Definition set_focus (o : option nat) (w : World) : World :=
  mkWorld (heap w) (doc w) o (location w) (scrollY w) (now w)
          (timers w) (listeners w) (observed w) (answers w) (dialogs w)
          (prevented w).
Definition set_location (u : string) (w : World) : World :=
  mkWorld (heap w) (doc w) (focus w) u (scrollY w) (now w)
          (timers w) (listeners w) (observed w) (answers w) (dialogs w)
          (prevented w).
Definition set_now (t : N) (w : World) : World :=
  mkWorld (heap w) (doc w) (focus w) (location w) (scrollY w) t
          (timers w) (listeners w) (observed w) (answers w) (dialogs w)
          (prevented w).
Definition set_timers (ts : list (N * Task)) (w : World) : World :=
  mkWorld (heap w) (doc w) (focus w) (location w) (scrollY w) (now w)
          ts (listeners w) (observed w) (answers w) (dialogs w)
          (prevented w).
Definition set_listeners (ls : list (Target * string * Listener)) (w : World)
  : World :=
  mkWorld (heap w) (doc w) (focus w) (location w) (scrollY w) (now w)
          (timers w) ls (observed w) (answers w) (dialogs w) (prevented w).
Definition set_observed (os : list nat) (w : World) : World :=
  mkWorld (heap w) (doc w) (focus w) (location w) (scrollY w) (now w)
          (timers w) (listeners w) os (answers w) (dialogs w) (prevented w).
Definition set_answers (a : list bool) (w : World) : World :=
  mkWorld (heap w) (doc w) (focus w) (location w) (scrollY w) (now w)
          (timers w) (listeners w) (observed w) a (dialogs w) (prevented w).
Definition set_dialogs (d : list Dialog) (w : World) : World :=
  mkWorld (heap w) (doc w) (focus w) (location w) (scrollY w) (now w)
          (timers w) (listeners w) (observed w) (answers w) d (prevented w).
Definition set_prevented (b : bool) (w : World) : World :=
  mkWorld (heap w) (doc w) (focus w) (location w) (scrollY w) (now w)
          (timers w) (listeners w) (observed w) (answers w) (dialogs w) b.

(** ** The script monad: state plus JavaScript exceptions *)

Inductive JsError := TypeError | NotFoundError.

Inductive outcome (A : Type) :=
  | Done (a : A)
  | Raise (e : JsError).
Arguments Done {A} a.
Arguments Raise {A} e.

Definition M (A : Type) : Type := World → outcome A * World.

Definition ret {A} (a : A) : M A := λ w, (Done a, w).
Definition raise {A} (e : JsError) : M A := λ w, (Raise e, w).
Definition bind {A B} (m : M A) (k : A → M B) : M B :=
  λ w, match m w with
       | (Done a, w') => k a w'
       | (Raise e, w') => (Raise e, w')
       end.
Definition modify (f : World → World) : M unit := λ w, (Done tt, f w).
Definition gets {A} (f : World → A) : M A := λ w, (Done (f w), w).

Notation "'let*' x ':=' m 'in' k" := (bind m (λ x, k))
  (at level 10, x name, m at level 100, k at level 200).
Notation "m >> k" := (bind m (λ _, k))
  (at level 100, k at level 200, right associativity).

(** Property access on a possibly-null reference. *)
Definition deref {A} (o : option A) : M A :=
  match o with
  | Some x => ret x
  | None => raise TypeError
  end.

(** [array.forEach]. *)
Fixpoint forEach {A} (f : A → M unit) (l : list A) : M unit :=
  match l with
  | [] => ret tt
  | a :: r => f a >> forEach f r
  end.

(** The final world of a run; an uncaught exception is reported by the
    browser and otherwise dropped. *)
Definition exec {A} (m : M A) (w : World) : World := (m w).2.

(** ** DOM primitives *)

Definition body (w : World) : nat := root_id (doc w).

Definition read {A} (f : Element → A) (i : nat) : M A :=
  gets (λ w, f (elem_at (heap w) i)).

Definition write (f : Element → Element) (i : nat) : M unit :=
  modify (set_heap (alter f i)).

(** Queries, as functions of the page. *)
Definition element_by_id (s : string) (w : World) : option nat :=
  head (filter (λ i, ident (elem_at (heap w) i) = s)
               (map fst (walk [] (doc w)))).

Definition elements_matching (s : selector) (w : World) : list nat :=
  select (heap w) s (walk [] (doc w)).

Definition ancestors (w : World) (i : nat) : list nat :=
  default [] (snd <$> head (filter (λ p, p.1 = i) (walk [] (doc w)))).

Fixpoint closest_in (h : list Element) (s : selector) (chain : list nat)
  : option nat :=
  match chain with
  | a :: r => if matches h s a r then Some a else closest_in h s r
  | [] => None
  end.

(** The element itself or its nearest matching ancestor. *)
Definition closest_match (s : selector) (i : nat) (w : World) : option nat :=
  closest_in (heap w) s (i :: ancestors w i).

(** The first matching descendant. *)
Definition descendant_matching (s : selector) (i : nat) (w : World)
  : option nat :=
  match subtree i (doc w) with
  | Some (Node _ ks) =>
      head (select (heap w) s (flat_map (walk (i :: ancestors w i)) ks))
  | None => None
  end.

Definition next_sibling (i : nat) (w : World) : option nat :=
  head (omap (λ p, after i p.2) (families (doc w))).

Definition getElementById (s : string) : M (option nat) :=
  gets (element_by_id s).

Definition querySelectorAll (s : selector) : M (list nat) :=
  gets (elements_matching s).

Definition querySelector (s : selector) : M (option nat) :=
  gets (λ w, head (elements_matching s w)).

(** [el.closest(sel)]. *)
Definition closest (s : selector) (i : nat) : M (option nat) :=
  gets (closest_match s i).

(** [el.querySelector(sel)]. *)
Definition querySelectorIn (s : selector) (i : nat) : M (option nat) :=
  gets (descendant_matching s i).

Definition nextElementSibling (i : nat) : M (option nat) :=
  gets (next_sibling i).

Definition createElement (tag : string) : M nat :=
  λ w, (Done (length (heap w)), set_heap (λ h, h ++ [blank tag]) w).

(** [document.body.appendChild(el)] for an element that was just created. *)
Definition appendChild_body (i : nat) : M unit :=
  modify (λ w, set_doc (Node (body w) (children (doc w) ++ [Node i []])) w).

(** [document.body.removeChild(el)]. *)
Definition removeChild_body (i : nat) : M unit :=
  λ w, if bool_decide (i ∈ map root_id (children (doc w)))
       then (Done tt,
             set_doc (Node (body w)
                           (filter (λ t, root_id t ≠ i) (children (doc w)))) w)
       else (Raise NotFoundError, w).

Definition setStyle (k v : string) (i : nat) : M unit := write (with_style k v) i.
Definition setInnerHTML (h : jsstr) (i : nat) : M unit := write (with_innerHTML h) i.
Definition setClassName (s : string) (i : nat) : M unit :=
  write (with_classes (tokens s)) i.
Definition setDisabled (b : bool) (i : nat) : M unit := write (with_disabled b) i.
Definition classList_add (c : string) (i : nat) : M unit := write (class_add c) i.
Definition classList_remove (c : string) (i : nat) : M unit :=
  write (class_remove c) i.

Definition focus_on (i : nat) : M unit := modify (set_focus (Some i)).

Definition preventDefault : M unit := modify (set_prevented true).

Definition alert (text : jsstr) : M unit :=
  modify (λ w, set_dialogs (dialogs w ++ [Alert text]) w).

(** [confirm(text)]: the user's next answer; a user who has left answers
    nothing, which cancels the dialog. *)
Definition confirm (text : jsstr) : M bool :=
  λ w, let a := default false (head (answers w)) in
       (Done a,
        set_dialogs (dialogs w ++ [Confirm text a])
                    (set_answers (tail (answers w)) w)).

Definition setTimeout (t : Task) (delay : N) : M unit :=
  modify (λ w, set_timers (timers w ++ [((now w + delay)%N, t)]) w).

Definition addEventListener (tg : Target) (ty : string) (l : Listener)
  : M unit :=
  modify (λ w, set_listeners (listeners w ++ [(tg, ty, l)]) w).

(** [observer.observe(el)]: a target is observed once. *)
Definition observe (i : nat) : M unit :=
  modify (λ w, if bool_decide (i ∈ observed w) then w
               else set_observed (observed w ++ [i]) w).

(** ** The scripts *)

(** [static/js/main.js] and the minimal-design variant. *)
Inductive Script := MainJs | MinimalJs.

Module Text.
Definition dq : string := String "034"%char "".

Definition warning_sign : jsstr := [0x26A0; 0xFE0F]%N.
Definition robot : jsstr := [0xD83E; 0xDD16]%N.
Definition wastebasket : jsstr := [0xD83D; 0xDDD1; 0xFE0F]%N.
Definition pushpin : jsstr := [0xD83D; 0xDCCD]%N.
Definition sparkles : jsstr := [0x2728]%N.

Definition too_short (sc : Script) : jsstr :=
  match sc with
  | MainJs =>
      warning_sign ++ lit " Please enter a task with at least 3 characters"
  | MinimalJs => warning_sign ++ lit " Please enter at least 3 characters"
  end.

Definition analyzing : jsstr := robot ++ lit " AI is analyzing your task...".

Definition spinner : jsstr :=
  lit ("<i class=" ++ dq ++ "fas fa-spinner fa-spin" ++ dq
       ++ "></i> Analyzing...").

Definition counted (sc : Script) (n : nat) : jsstr :=
  match sc with
  | MainJs =>
      lit ("<i class=" ++ dq ++ "fas fa-check-circle text-success" ++ dq
           ++ "></i> ")
      ++ of_nat n ++ lit " characters - Looking good!"
  | MinimalJs =>
      lit ("<i class=" ++ dq ++ "fas fa-check-circle" ++ dq ++ "></i> ")
      ++ of_nat n ++ lit " characters"
  end.

Definition hint (sc : Script) : jsstr :=
  match sc with
  | MainJs =>
      lit ("<i class=" ++ dq ++ "fas fa-info-circle" ++ dq
           ++ "></i> AI will analyze this task against current weather")
  | MinimalJs =>
      lit ("<i class=" ++ dq ++ "fas fa-info-circle" ++ dq
           ++ "></i> AI will analyze this task")
  end.

Definition delete_prompt (sc : Script) (taskName : jsstr) : jsstr :=
  match sc with
  | MainJs =>
      wastebasket ++ lit " Are you sure you want to delete:" ++ [10%N]
      ++ lit dq ++ taskName ++ lit (dq ++ "?")
  | MinimalJs => lit ("Delete " ++ dq) ++ taskName ++ lit (dq ++ "?")
  end.

Definition deleted (sc : Script) : jsstr :=
  match sc with
  | MainJs => wastebasket ++ lit " Task deleted!"
  | MinimalJs => wastebasket ++ lit " Task deleted"
  end.

Definition updating_location : jsstr := pushpin ++ lit " Updating location...".

Definition quick_add (sc : Script) : jsstr :=
  match sc with
  | MainJs => sparkles ++ lit " Quick add task!"
  | MinimalJs => sparkles ++ lit " Quick add task"
  end.
End Text.

(** *** Toasts (identical in both scripts) *)

Definition showToast (message : jsstr) (type : string) : M unit :=
  let* toast := createElement "div" in
  setClassName ("toast-notification toast-" ++ type) toast >>
  setInnerHTML message toast >>
  appendChild_body toast >>
  setTimeout (ToastShow toast) 100 >>
  setTimeout (ToastHide toast) 3000.

(** *** Event handlers *)

(** [this] of a listener that uses it as an element. *)
Definition this_element (this : Target) : M nat :=
  match this with
  | TElem i => ret i
  | _ => raise TypeError
  end.

Definition onScrollNavbar (navbar : option nat) : M unit :=
  let* y := gets scrollY in
  let* n := deref navbar in
  if (50 <? y)%N then classList_add "scrolled" n
  else classList_remove "scrolled" n.

Definition onSubmitTask (sc : Script) : M unit :=
  let* taskInput := getElementById "task_name" in
  let* submitBtn := getElementById "submitTaskBtn" in
  let* input := deref taskInput in
  let* v := read value input in
  if decide (length (trim v) < 3) then
    preventDefault >>
    match sc with
    | MainJs => alert (Text.too_short sc)
    | MinimalJs => showToast (Text.too_short sc) "warning"
    end >>
    focus_on input
  else
    let* btn := deref submitBtn in
    setDisabled true btn >>
    setInnerHTML Text.spinner btn >>
    showToast Text.analyzing "info".

Definition onInputTask (sc : Script) (this : Target) : M unit :=
  let* el := this_element this in
  let* v := read value el in
  let* formText := nextElementSibling el in
  let* ft := deref formText in
  if decide (0 < length v) then
    setInnerHTML (Text.counted sc (length v)) ft >>
    match sc with
    | MainJs => ret tt
    | MinimalJs => setStyle "color" "var(--success)" ft
    end
  else
    setInnerHTML (Text.hint sc) ft >>
    match sc with
    | MainJs => ret tt
    | MinimalJs => setStyle "color" "var(--text-secondary)" ft
    end.

Definition onMouseEnterTask (sc : Script) (this : Target) : M unit :=
  let* el := this_element this in
  setStyle "transform"
           match sc with
           | MainJs => "translateX(5px)"
           | MinimalJs => "translateX(8px)"
           end el.

Definition onMouseLeaveTask (this : Target) : M unit :=
  let* el := this_element this in
  setStyle "transform" "translateX(0)" el.

Definition onToggleClick (this : Target) : M unit :=
  let* el := this_element this in
  let* taskItem := closest (SClass "task-item") el in
  let* item := deref taskItem in
  setStyle "transition" "all 0.3s ease" item >>
  setStyle "opacity" "0.5" item.

Definition onDeleteClick (sc : Script) (this : Target) : M unit :=
  preventDefault >>
  let* el := this_element this in
  let* taskItem := closest (SClass "task-item") el in
  let* item := deref taskItem in
  let* taskTitle := querySelectorIn (SClass "task-title") item in
  let* title := deref taskTitle in
  let* taskName := read textContent title in
  let* yes := confirm (Text.delete_prompt sc taskName) in
  if yes then
    showToast (Text.deleted sc) "info" >>
    setTimeout (Navigate el) 500
  else ret tt.

Definition onLocationSubmit : M unit :=
  showToast Text.updating_location "info".

Definition onKeydown (sc : Script) (e : EventData) : M unit :=
  if (ctrlKey e || metaKey e) && bool_decide (key e = "k") then
    preventDefault >>
    let* taskInput := getElementById "task_name" in
    match taskInput with
    | Some input =>
        focus_on input >>
        showToast (Text.quick_add sc) "info"
    | None => ret tt
    end
  else ret tt.

Definition onEmojiEnter (this : Target) : M unit :=
  let* el := this_element this in
  setStyle "transform" "scale(1.2) rotate(10deg)" el.

Definition onEmojiLeave (this : Target) : M unit :=
  let* el := this_element this in
  setStyle "transform" "scale(1) rotate(0deg)" el.

Definition handle (sc : Script) (l : Listener) (this : Target) (e : EventData)
  : M unit :=
  match l with
  | OnScrollNavbar navbar => onScrollNavbar navbar
  | OnSubmitTask => onSubmitTask sc
  | OnInputTask => onInputTask sc this
  | OnMouseEnterTask => onMouseEnterTask sc this
  | OnMouseLeaveTask => onMouseLeaveTask this
  | OnToggleClick => onToggleClick this
  | OnDeleteClick => onDeleteClick sc this
  | OnLocationSubmit => onLocationSubmit
  | OnKeydown => onKeydown sc e
  | OnEmojiEnter => onEmojiEnter this
  | OnEmojiLeave => onEmojiLeave this
  end.

(** The IntersectionObserver callback of [initAnimations]; an entry is its
    target and its [isIntersecting] flag. *)
Definition onIntersection (entries : list (nat * bool)) : M unit :=
  forEach (λ entry : nat * bool,
             if entry.2 then
               setStyle "opacity" "1" entry.1 >>
               setStyle "transform" "translateY(0)" entry.1
             else ret tt)
          entries.

(** *** Initialisers *)

Definition initNavbar : M unit :=
  let* navbar := querySelector (SClass "navbar-custom") in
  addEventListener TWindow "scroll" (OnScrollNavbar navbar).

Definition initAnimations (sc : Script) : M unit :=
  let* els := querySelectorAll
                (SOr (SClass "animate-fade-in") (SClass "animate-slide-up")) in
  forEach (λ el,
             match sc with
             | MainJs => ret tt
             | MinimalJs =>
                 setStyle "opacity" "0" el >>
                 setStyle "transform" "translateY(30px)" el >>
                 setStyle "transition" "all 0.8s cubic-bezier(0.4, 0, 0.2, 1)" el
             end >>
             observe el)
          els.

Definition initFormValidation : M unit :=
  let* taskForm := getElementById "addTaskForm" in
  match taskForm with
  | Some form => addEventListener (TElem form) "submit" OnSubmitTask
  | None => ret tt
  end >>
  let* taskInput := getElementById "task_name" in
  match taskInput with
  | Some input => addEventListener (TElem input) "input" OnInputTask
  | None => ret tt
  end.

Definition initTaskInteractions (sc : Script) : M unit :=
  let* tasks := querySelectorAll (SClass "task-item") in
  forEach (λ task,
             addEventListener (TElem task) "mouseenter" OnMouseEnterTask >>
             addEventListener (TElem task) "mouseleave" OnMouseLeaveTask)
          tasks >>
  match sc with
  | MainJs =>
      let* toggleLinks := querySelectorAll (SClass "task-toggle") in
      forEach (λ link, addEventListener (TElem link) "click" OnToggleClick)
              toggleLinks
  | MinimalJs => ret tt
  end >>
  let* deleteLinks := querySelectorAll
                        (SDesc (SClass "task-actions")
                               (STagAttrHas "a" "delete_task")) in
  forEach (λ link, addEventListener (TElem link) "click" OnDeleteClick)
          deleteLinks.

Definition initWeatherUpdates (sc : Script) : M unit :=
  let* weatherCard := querySelector (SClass "weather-card") in
  match weatherCard with
  | Some card =>
      match sc with
      | MainJs => classList_add "weather-loaded" card
      | MinimalJs => setStyle "animation" "fadeIn 0.8s ease" card
      end
  | None => ret tt
  end >>
  let* locationForm := getElementById "locationForm" in
  match locationForm with
  | Some form => addEventListener (TElem form) "submit" OnLocationSubmit
  | None => ret tt
  end.

Definition animateWeatherEmoji : M unit :=
  let* weatherEmoji := querySelector (SClass "weather-emoji-large") in
  match weatherEmoji with
  | Some emoji =>
      addEventListener (TElem emoji) "mouseenter" OnEmojiEnter >>
      addEventListener (TElem emoji) "mouseleave" OnEmojiLeave
  | None => ret tt
  end.




(** The [DOMContentLoaded] listener. *)
Definition onDOMContentLoaded (sc : Script) : M unit :=
  match sc with
  | MainJs => ret tt
  | MinimalJs => initNavbar
  end >>
  initAnimations sc >>
  initFormValidation >>
  initTaskInteractions sc >>
  initWeatherUpdates sc.

(** What the script does when it is loaded, besides registering
    [onDOMContentLoaded]. *)
Definition onLoad (sc : Script) : M unit :=
  addEventListener TDocument "keydown" OnKeydown >>
  match sc with
  | MainJs => setTimeout AnimateWeatherEmoji 500
  | MinimalJs => ret tt
  end.

(** *** Timer callbacks *)

Definition run_task (t : Task) : M unit :=
  match t with
  | ToastShow toast => classList_add "show" toast
  | ToastHide toast =>
      classList_remove "show" toast >>
      setTimeout (ToastRemove toast) 300
  | ToastRemove toast => removeChild_body toast
  | Navigate link =>
      let* url := read href link in
      modify (set_location url)
  | AnimateWeatherEmoji => animateWeatherEmoji
  end.

(** ** The browser *)

(** Listeners run in registration order; an exception ends the listener that
    raised it and nothing else. *)
Definition dispatch (sc : Script) (tg : Target) (ty : string) (e : EventData)
    (w : World) : World :=
  fold_left (λ w' (r : Target * string * Listener),
               if bool_decide (r.1.1 = tg ∧ r.1.2 = ty)
               then exec (handle sc r.2 tg e) w' else w')
            (listeners w) (set_prevented false w).

(** The browser reports intersection changes of observed targets only. *)
Definition deliver (entries : list (nat * bool)) (w : World) : World :=
  exec (onIntersection
          (filter (λ en, en.1 ∈ observed w) entries)) w.

(** The timer that fires next: the earliest, the first scheduled among
    equals; with it, the timers that stay. *)
Fixpoint pick (ts : list (N * Task)) : option ((N * Task) * list (N * Task)) :=
  match ts with
  | [] => None
  | t :: r =>
      match pick r with
      | Some (m, r') =>
          if (m.1 <? t.1)%N then Some (m, t :: r') else Some (t, r)
      | None => Some (t, r)
      end
  end.

Definition fire (d : N) (t : Task) (rest : list (N * Task)) (w : World)
  : World :=
  exec (run_task t) (set_now (N.max (now w) d) (set_timers rest w)).

(** An upper bound of the callbacks a timer can cause: itself and the timers
    it schedules. *)
Definition weight (t : Task) : nat :=
  match t with
  | ToastHide _ => 2
  | _ => 1
  end.

Definition total_weight (ts : list (N * Task)) : nat :=
  foldr (λ t n, weight t.2 + n) 0 ts.

Fixpoint run_timers (fuel : nat) (limit : N) (w : World) : World :=
  match fuel with
  | 0 => w
  | S fuel' =>
      match pick (timers w) with
      | Some ((d, t), rest) =>
          if (d <=? limit)%N then run_timers fuel' limit (fire d t rest w)
          else w
      | None => w
      end
  end.

(** Let the clock reach [limit]: every timer due by then fires. *)
Definition run_until (limit : N) (w : World) : World :=
  let w' := run_timers (total_weight (timers w)) limit w in
  set_now (N.max (now w') limit) w'.

(** Let [ms] milliseconds pass. *)
Definition wait (ms : N) (w : World) : World := run_until (now w + ms) w.

(** What can happen to a loaded page. *)
Inductive Happening :=
  | Fires (tg : Target) (ty : string) (e : EventData)   (* an event *)
  | Intersects (entries : list (nat * bool))            (* observer report *)
  | Scrolls (y : N)                                     (* the page scrolls *)
  | Passes (ms : N).                                    (* time passes *)

Definition happen (sc : Script) (h : Happening) (w : World) : World :=
  match h with
  | Fires tg ty e => dispatch sc tg ty e w
  | Intersects entries => deliver entries w
  | Scrolls y =>
      dispatch sc TWindow "scroll" plain_event
               (mkWorld (heap w) (doc w) (focus w) (location w) y (now w)
                        (timers w) (listeners w) (observed w) (answers w)
                        (dialogs w) (prevented w))
  | Passes ms => wait ms w
  end.

Definition happen_all (sc : Script) (hs : list Happening) (w : World) : World :=
  fold_left (λ w' h, happen sc h w') hs w.

(** ** A sample page

    The markup the scripts expect: a navbar, the add-task form (field, hint,
    submit button), and one task with its title, toggle link and delete
    link.  The task item is also one of the animated elements. *)
Module Sample.
Definition el (tag id : string) (cs : list string) : Element :=
  mkElement tag id cs ∅ [] [] [] false None "".

Definition link (cs : list string) (url : string) : Element :=
  mkElement "a" "" cs ∅ [] [] [] false (Some url)
            ("http://localhost:5000" ++ url).

Definition field (v : jsstr) : Element :=
  mkElement "input" "task_name" [] ∅ [] [] v false None "".

Definition title (t : jsstr) : Element :=
  mkElement "span" "" ["task-title"] ∅ [] t [] false None "".

Definition elements (v : jsstr) : list Element :=
  [ el "body" "" [];                                    (* 0 *)
    el "nav" "" ["navbar-custom"];                      (* 1 *)
    el "form" "addTaskForm" [];                         (* 2 *)
    field v;                                            (* 3 *)
    el "small" "" ["form-text"];                        (* 4 *)
    el "button" "submitTaskBtn" [];                     (* 5 *)
    el "div" "" ["task-item"; "animate-fade-in"];       (* 6 *)
    title (lit "Mow the lawn");                         (* 7 *)
    link ["task-toggle"] "/toggle_task/1";              (* 8 *)
    el "div" "" ["task-actions"];                       (* 9 *)
    link [] "/delete_task/1" ].                         (* 10 *)

Definition tree : Tree :=
  Node 0 [ Node 1 [];
           Node 2 [ Node 3 []; Node 4 []; Node 5 [] ];
           Node 6 [ Node 7 []; Node 8 []; Node 9 [ Node 10 [] ] ] ].

(** The page as parsed, before any script has run. *)
Definition parsed (v : jsstr) (user : list bool) : World :=
  mkWorld (elements v) tree None "http://localhost:5000/" 0 0 [] [] []
          user [] false.

(** The page once the script has loaded and [DOMContentLoaded] has fired. *)
Definition page (sc : Script) (v : jsstr) (user : list bool) : World :=
  exec (onDOMContentLoaded sc) (exec (onLoad sc) (parsed v user)).

(** A page without any of the expected elements. *)
Definition bare (sc : Script) : World :=
  exec (onDOMContentLoaded sc)
       (exec (onLoad sc)
             (mkWorld [el "body" "" []] (Node 0 []) None
                      "http://localhost:5000/" 0 0 [] [] [] [] [] false)).
End Sample.

(** * Vocabulary of the properties *)

(** The element [showToast] builds. *)
Definition toast_element (message : jsstr) (type : string) : Element :=
  with_innerHTML message
    (with_classes (tokens ("toast-notification toast-" ++ type)) (blank "div")).

(** The world after a call of [showToast]. *)
Definition toasted (message : jsstr) (type : string) (w : World) : World :=
  let toast := length (heap w) in
  mkWorld (heap w ++ [toast_element message type])
          (Node (body w) (children (doc w) ++ [Node toast []]))
          (focus w) (location w) (scrollY w) (now w)
          (timers w ++ [((now w + 100)%N, ToastShow toast);
                        ((now w + 3000)%N, ToastHide toast)])
          (listeners w) (observed w) (answers w) (dialogs w) (prevented w).

(** Between [w] and [w'] a notification was emitted: a fresh element with the
    message and the category class is the last child of the body, and its
    two timers are scheduled. *)
Definition notified (message : jsstr) (type : string) (w w' : World) : Prop :=
  let toast := length (heap w) in
  heap w' !! toast = Some (toast_element message type)
  ∧ length (heap w') = S toast
  ∧ doc w' = Node (body w) (children (doc w) ++ [Node toast []])
  ∧ timers w' = timers w ++ [((now w + 100)%N, ToastShow toast);
                             ((now w + 3000)%N, ToastHide toast)].

(** The element is a child of the body. *)
Definition attached (i : nat) (w : World) : bool :=
  bool_decide (i ∈ map root_id (children (doc w))).

(** The element carries the class that makes a toast visible. *)
Definition shown (i : nat) (w : World) : bool :=
  has_class "show" (elem_at (heap w) i).

(** The script code [m] keeps the invariant [I], however it ends. *)
Definition preserves {A} (I : World → Prop) (m : M A) : Prop :=
  ∀ w, I w → I (m w).2.

(** The inline opacity of an element. *)
Definition opacity (i : nat) (w : World) : option string :=
  style (elem_at (heap w) i) !! "opacity".

(** The element [i] exists and has the property [P]. *)
Definition holds_at (P : Element → Prop) (i : nat) (w : World) : Prop :=
  i < length (heap w) ∧ P (elem_at (heap w) i).

(** A task item that a click on its toggle link has dimmed, and that the
    intersection observer does not watch. *)
Definition dimmed (item : nat) (w : World) : Prop :=
  holds_at (λ e, style e !! "opacity" = Some "0.5") item w
  ∧ item ∉ observed w.

(** What the observer callback sets on an element it reveals. *)
Definition revealed (i : nat) (w : World) : Prop :=
  holds_at (λ e, style e !! "opacity" = Some "1"
                 ∧ style e !! "transform" = Some "translateY(0)") i w.

(** The toast a timer callback works on. *)
Definition toast_of (t : Task) : option nat :=
  match t with
  | ToastShow i | ToastHide i | ToastRemove i => Some i
  | Navigate _ | AnimateWeatherEmoji => None
  end.

(** The pending timers of the toast [X]. *)
Definition pending (X : nat) (w : World) : list (N * Task) :=
  filter (λ p, toast_of p.2 = Some X) (timers w).

(** The timers a callback that runs at time [t] schedules. *)
Definition spawned (c : Task) (t : N) : list (N * Task) :=
  match c with
  | ToastHide i => [((t + 300)%N, ToastRemove i)]
  | _ => []
  end.

(** No pending timer is overdue. *)
Definition on_time (w : World) : Prop :=
  Forall (λ p, (now w ≤ p.1)%N) (timers w).

(** Every pending timer is due in the future: the state of a page between
    two turns of the event loop. *)
Definition settled (w : World) : Prop :=
  Forall (λ p, (now w < p.1)%N) (timers w).

(** The pending toast timers are about elements that exist. *)
Definition allocated (w : World) : Prop :=
  Forall (λ p, ∀ i, toast_of p.2 = Some i → i < length (heap w)) (timers w).

(** The life of the toast [X] that was created at time [t0]. *)
Inductive phase (X : nat) (t0 : N) (w : World) : Prop :=
  | Inserted :
      pending X w = [((t0 + 100)%N, ToastShow X); ((t0 + 3000)%N, ToastHide X)] →
      shown X w = false → attached X w = true →
      phase X t0 w
  | Visible :
      pending X w = [((t0 + 3000)%N, ToastHide X)] →
      shown X w = true → attached X w = true →
      (t0 + 100 ≤ now w)%N →
      phase X t0 w
  | Hidden :
      pending X w = [((t0 + 3300)%N, ToastRemove X)] →
      shown X w = false → attached X w = true →
      (t0 + 3000 ≤ now w)%N →
      phase X t0 w
  | Removed :
      pending X w = [] →
      shown X w = false → attached X w = false →
      (t0 + 3300 ≤ now w)%N →
      phase X t0 w.

(** What can be seen of the toast [X]: its pending timers, whether it is
    shown, whether it is on the page. *)
Definition toast_view (X : nat) (w : World)
  : list (N * Task) * bool * bool :=
  (pending X w, shown X w, attached X w).

(** The invariant of an existing toast while listeners run: the clock stands
    still and the toast is not touched. *)
Definition toast_frame (X : nat) (v : list (N * Task) * bool * bool) (t : N)
    (w : World) : Prop :=
  X < length (heap w)
  ∧ allocated w ∧ settled w ∧ now w = t ∧ toast_view X w = v.

(** The invariant of the toast [X], created at time [t0], between two turns
    of the event loop. *)
Definition lifecycle (X : nat) (t0 : N) (w : World) : Prop :=
  X < length (heap w) ∧ allocated w ∧ settled w ∧ phase X t0 w.

(** The callback navigates. *)
Definition navigates (t : Task) : bool :=
  match t with
  | Navigate _ => true
  | _ => false
  end.

(** ** The loaded page *)

(** The page once the script has been loaded and [DOMContentLoaded] has
    fired. *)
Definition loaded (sc : Script) (w0 : World) : World :=
  exec (onDOMContentLoaded sc) (exec (onLoad sc) w0).

(** The page as the parser leaves it: the document is a tree of distinct
    elements, and the script has not registered a listener yet. *)
Definition parsed (w0 : World) : Prop :=
  listeners w0 = [] ∧ NoDup (map fst (walk [] (doc w0))).

(** The user types [v] into a field. *)
Definition with_value (v : jsstr) (e : Element) : Element :=
  mkElement (tagName e) (ident e) (classes e) (style e) (innerHTML e)
            (textContent e) v (disabled e) (attr_href e) (href e).

Definition typed (field : nat) (v : jsstr) (w : World) : World :=
  set_heap (alter (with_value v) field) w.

(** The listeners registered on [tg] for events of type [ty], in
    registration order. *)
Definition listening (tg : Target) (ty : string)
    (ls : list (Target * string * Listener)) : list Listener :=
  map snd (filter (λ r, r.1.1 = tg ∧ r.1.2 = ty) ls).

(** The listeners of one node of the propagation path run. *)
Definition run_listeners (sc : Script) (tg : Target) (ty : string)
    (e : EventData) (w : World) : World :=
  fold_left (λ w' (r : Target * string * Listener),
               if bool_decide (r.1.1 = tg ∧ r.1.2 = ty)
               then exec (handle sc r.2 tg e) w' else w')
            (listeners w) w.

(** An event that bubbles, such as a key press: from the element it is
    targeted at, through the ancestors of the element, to the document and
    the window.  The scripts never stop the propagation. *)
Definition bubble (sc : Script) (target : nat) (ty : string) (e : EventData)
    (w : World) : World :=
  fold_left (λ w' tg, run_listeners sc tg ty e w')
            (TElem target :: map TElem (ancestors w target)
             ++ [TDocument; TWindow])
            (set_prevented false w).

(** What the selectors and the handlers read of an element is the same in
    [e0] and [e]; the inline style may differ, and so may the class that
    main.js adds to the weather card. *)
Definition same_element (e0 e : Element) : Prop :=
  tagName e = tagName e0 ∧ ident e = ident e0 ∧ attr_href e = attr_href e0
  ∧ href e = href e0 ∧ value e = value e0 ∧ textContent e = textContent e0
  ∧ innerHTML e = innerHTML e0 ∧ disabled e = disabled e0
  ∧ ∀ c, c ≠ "weather-loaded" → has_class c e = has_class c e0.

Definition same_markup (w0 w : World) : Prop :=
  doc w = doc w0
  ∧ length (heap w) = length (heap w0)
  ∧ ∀ i, same_element (elem_at (heap w0) i) (elem_at (heap w) i).

(** The selector names the class [c]. *)
Fixpoint mentions (c : string) (s : selector) : bool :=
  match s with
  | SClass c' => bool_decide (c' = c)
  | STagAttrHas _ _ => false
  | SDesc a b | SOr a b => mentions c a || mentions c b
  end.

(** The delete links of a page, and the toggle links that a script wires. *)
Definition delete_links (w : World) : list nat :=
  elements_matching (SDesc (SClass "task-actions")
                           (STagAttrHas "a" "delete_task")) w.

Definition toggle_links (sc : Script) (w : World) : list nat :=
  match sc with
  | MainJs => elements_matching (SClass "task-toggle") w
  | MinimalJs => []
  end.

(** The listeners of a loaded page, read off the parsed page. *)
Definition registered (sc : Script) (w0 : World)
  : list (Target * string * Listener) :=
  [(TDocument, "keydown", OnKeydown)]
  ++ match sc with
     | MainJs => []
     | MinimalJs =>
         [(TWindow, "scroll",
           OnScrollNavbar (head (elements_matching (SClass "navbar-custom")
                                                   w0)))]
     end
  ++ match element_by_id "addTaskForm" w0 with
     | Some form => [(TElem form, "submit", OnSubmitTask)]
     | None => []
     end
  ++ match element_by_id "task_name" w0 with
     | Some input => [(TElem input, "input", OnInputTask)]
     | None => []
     end
  ++ flat_map (λ task, [(TElem task, "mouseenter", OnMouseEnterTask);
                        (TElem task, "mouseleave", OnMouseLeaveTask)])
              (elements_matching (SClass "task-item") w0)
  ++ map (λ link, (TElem link, "click", OnToggleClick)) (toggle_links sc w0)
  ++ map (λ link, (TElem link, "click", OnDeleteClick)) (delete_links w0)
  ++ match element_by_id "locationForm" w0 with
     | Some form => [(TElem form, "submit", OnLocationSubmit)]
     | None => []
     end.

(** What a listener or an initialiser can leave as it is, the event's
    [defaultPrevented] flag apart. *)
Definition surroundings (w : World) :=
  (doc w, focus w, location w, scrollY w, now w, timers w, observed w,
   answers w, dialogs w, length (heap w)).

(** The user declines every confirmation still to come, and no navigation
    is pending. *)
Definition declining (w : World) : Prop :=
  Forall (λ a, a = false) (answers w)
  ∧ Forall (λ p, navigates p.2 = false) (timers w).

(** What [highlightRisk] does to an element. *)
Definition paint (e : Element) : Element :=
  if has_class "risk-high" e then with_style "borderLeft" "4px solid #dc3545" e
  else if has_class "risk-medium" e
       then with_style "borderLeft" "4px solid #ffc107" e
       else if has_class "risk-low" e
            then with_style "borderLeft" "4px solid #17a2b8" e
            else e.

(** The page is at the address [u], and [declining]. *)
Definition stays (u : string) (w : World) : Prop :=
  location w = u ∧ declining w.

(** Symbolic execution of script code: unfold the monad, the DOM primitives
    and the record operations, and nothing else. *)
Ltac run :=
  cbv beta iota zeta delta
    [bind ret raise modify gets deref exec fst snd
     read write createElement appendChild_body removeChild_body
     setStyle setInnerHTML setClassName setDisabled classList_add
     classList_remove focus_on preventDefault alert confirm setTimeout
     addEventListener observe getElementById querySelectorAll querySelector
     closest querySelectorIn nextElementSibling this_element body
     set_heap set_doc set_focus set_location set_now set_timers
     set_listeners set_observed set_answers set_dialogs set_prevented
     heap doc focus location scrollY now timers listeners observed answers
     dialogs prevented].

(** The same for code that only reads the page: the monad and the queries. *)
Ltac queries :=
  cbv beta iota delta
    [bind ret raise gets deref fst snd read getElementById querySelectorAll
     querySelector closest querySelectorIn nextElementSibling this_element].

(** * Properties *)

(** ** Notifications *)

Lemma alter_snoc {A} (f : A → A) (l : list A) (x : A) :
  alter f (length l) (l ++ [x]) = l ++ [f x].
Proof.
  replace (length l) with (length l + 0) by lia.
  by rewrite alter_app_r.
Qed.

Lemma showToast_run message type w :
  showToast message type w = (Done tt, toasted message type w).
Proof.
  destruct w. unfold showToast, toasted. run.
  rewrite !alter_snoc, <- app_assoc. reflexivity.
Qed.

Lemma toasted_notified message type w :
  notified message type w (toasted message type w).
Proof.
  unfold notified, toasted; simpl. repeat split.
  - by rewrite lookup_app_r, Nat.sub_diag.
  - rewrite length_app; simpl; lia.
Qed.

Lemma toasted_categories message :
  classes (toast_element message "info") = ["toast-notification"; "toast-info"]
  ∧ classes (toast_element message "warning")
    = ["toast-notification"; "toast-warning"].
Proof. split; reflexivity. Qed.

(** [C7] Every call of [showToast] appends one fresh element to the arena and
    to the body and leaves what was there as it was: any sequence of calls,
    repeated messages included, yields one element per call, in call order,
    after the unchanged earlier ones. *)
Theorem showToast_appends_independent_elements
    (calls : list (jsstr * string)) (w : World) :
  let r := forEach (λ c, showToast c.1 c.2) calls w in
  r.1 = Done tt
  ∧ heap r.2 = heap w ++ map (λ c, toast_element c.1 c.2) calls
  ∧ doc r.2 = Node (body w)
                   (children (doc w)
                    ++ map (λ k, Node k [])
                           (seq (length (heap w)) (length calls))).
Proof.
  revert w. induction calls as [|c calls IH]; intros w; simpl.
  - rewrite !app_nil_r. destruct w as [h [b ks]]; done.
  - unfold bind. rewrite showToast_run.
    destruct (IH (toasted c.1 c.2 w)) as (Hd & Hh & Ht).
    split; [exact Hd|]. rewrite Hh, Ht. simpl.
    rewrite length_app, <- !app_assoc. simpl.
    replace (length (heap w) + 1) with (S (length (heap w))) by lia. done.
Qed.

(** ** Reading the arena *)

Lemma elem_at_alter_eq (f : Element → Element) (h : list Element) (i : nat) :
  i < length h → elem_at (alter f i h) i = f (elem_at h i).
Proof.
  intros Hi. unfold elem_at. rewrite list_lookup_alter_eq.
  destruct (lookup_lt_is_Some_2 h i Hi) as [e ->]. done.
Qed.

Lemma elem_at_alter_ne (f : Element → Element) (h : list Element) (i j : nat) :
  i ≠ j → elem_at (alter f i h) j = elem_at h j.
Proof. intros Hij. unfold elem_at. by rewrite list_lookup_alter_ne. Qed.

Lemma elem_at_app_l (h h' : list Element) (i : nat) :
  i < length h → elem_at (h ++ h') i = elem_at h i.
Proof. intros Hi. unfold elem_at. by rewrite lookup_app_l. Qed.

(** ** The keyboard shortcut *)

(** The keydown listener.  On a keydown with Ctrl or Cmd held and key "k",
    whatever has the focus, the default is suppressed; if the task field exists it receives
    the focus and an informational notification is emitted; if it does not,
    nothing else happens. *)
Theorem keyboard_shortcut_focuses_task_field
    (sc : Script) (e : EventData) (w : World) :
  ctrlKey e || metaKey e = true →
  key e = "k" →
  let r := onKeydown sc e w in
  r.1 = Done tt
  ∧ prevented r.2 = true
  ∧ match element_by_id "task_name" w with
    | Some input =>
        focus r.2 = Some input ∧ notified (Text.quick_add sc) "info" w r.2
    | None => r.2 = set_prevented true w
    end.
Proof.
  intros Hmod Hkey. unfold onKeydown. rewrite Hmod, Hkey.
  rewrite bool_decide_eq_true_2 by done. cbn [andb].
  destruct w. run.
  unfold element_by_id. cbn [heap doc].
  destruct (head _) as [input|].
  - rewrite showToast_run. cbn [fst snd]. split_and!; try done.
    match goal with |- notified _ _ _ (toasted _ _ ?w0) =>
      apply (toasted_notified (Text.quick_add sc) "info" w0)
    end.
  - done.
Qed.


(** ** Hovering a task *)



(** ** The add-task form *)





(** [C1], as the scripts have it.  When the add-task form is submitted on a
    page that has the field and the button: a trimmed value shorter than 3
    cancels the submission and returns the focus to the field, with a
    warning notification in the minimal script and a modal alert, and no
    notification, in main.js; otherwise the handler leaves the submission
    alone, disables the button, replaces its label with the spinner and
    emits an informational notification. *)
Theorem submit_validation
    (sc : Script) (w : World) (field button : nat) :
  element_by_id "task_name" w = Some field →
  element_by_id "submitTaskBtn" w = Some button →
  button < length (heap w) →
  let v := value (elem_at (heap w) field) in
  let r := onSubmitTask sc w in
  r.1 = Done tt
  ∧ if decide (length (trim v) < 3) then
      prevented r.2 = true
      ∧ focus r.2 = Some field
      ∧ match sc with
        | MinimalJs => notified (Text.too_short sc) "warning" w r.2
        | MainJs =>
            dialogs r.2 = dialogs w ++ [Alert (Text.too_short sc)]
            ∧ heap r.2 = heap w ∧ doc r.2 = doc w ∧ timers r.2 = timers w
        end
    else
      prevented r.2 = prevented w
      ∧ disabled (elem_at (heap r.2) button) = true
      ∧ innerHTML (elem_at (heap r.2) button) = Text.spinner
      ∧ notified Text.analyzing "info" w r.2.
Proof.
  intros Hf Hb Hlt v.
  unfold onSubmitTask, bind, getElementById, gets. rewrite Hf, Hb.
  cbv beta iota delta [deref ret fst snd read gets]. fold v.
  destruct (decide (length (trim v) < 3)).
  - destruct sc.
    + destruct w; run. done.
    + unfold bind, preventDefault, modify. rewrite showToast_run.
      cbv beta iota. unfold focus_on, modify. cbn [fst snd].
      split_and!; try done.
      apply (toasted_notified (Text.too_short MinimalJs) "warning"
               (set_prevented true w)).
  - unfold bind, setDisabled, setInnerHTML, write, modify.
    rewrite showToast_run. cbn [fst snd].
    destruct w; cbn [toasted set_heap heap doc now timers prevented] in *.
    split_and!; try done.
    + rewrite elem_at_app_l by (by rewrite !length_alter).
      rewrite elem_at_alter_eq by (by rewrite length_alter).
      by rewrite elem_at_alter_eq.
    + rewrite elem_at_app_l by (by rewrite !length_alter).
      by rewrite elem_at_alter_eq by (by rewrite length_alter).
    + unfold notified, toasted, set_heap, body.
      cbn [heap doc now timers]. split_and!; try done.
      * rewrite lookup_app_r by (by rewrite !length_alter).
        by rewrite !length_alter, Nat.sub_diag.
      * rewrite length_app, !length_alter. simpl. lia.
      * by rewrite !length_alter.
      * by rewrite !length_alter.
Qed.

Lemma submit_validation_witness :
  let w := Sample.page MinimalJs (lit "ab") [] in
  element_by_id "task_name" w = Some 3
  ∧ element_by_id "submitTaskBtn" w = Some 5
  ∧ 5 < length (heap w)
  ∧ (onSubmitTask MinimalJs w).1 = Done tt.
Proof.
  assert (H1 : element_by_id "task_name" (Sample.page MinimalJs (lit "ab") [])
               = Some 3) by (vm_compute; reflexivity).
  assert (H2 : element_by_id "submitTaskBtn"
                 (Sample.page MinimalJs (lit "ab") []) = Some 5)
    by (vm_compute; reflexivity).
  assert (H3 : 5 < length (heap (Sample.page MinimalJs (lit "ab") [])))
    by (vm_compute; lia).
  exact (conj H1 (conj H2 (conj H3
           (proj1 (submit_validation MinimalJs _ 3 5 H1 H2 H3))))).
Defined.

(** Against [C1] as the specification words it: in main.js a too short value
    is answered with a modal alert; no element is created, nothing is added
    to the page and no timer is scheduled, so no notification is emitted. *)
Lemma submit_too_short_alerts_in_main_js :
  let w := Sample.page MainJs (lit "ab") [] in
  let w' := dispatch MainJs (TElem 2) "submit" plain_event w in
  prevented w' = true
  ∧ focus w' = Some 3
  ∧ dialogs w' = [Alert (Text.too_short MainJs)]
  ∧ heap w' = heap w ∧ doc w' = doc w ∧ timers w' = timers w.
Proof. vm_compute. repeat split. Qed.

(** ** Invariants of script code *)

Section Preserves.
Context (I : World → Prop).

Lemma preserves_ret {A} (a : A) : preserves I (ret a).
Proof. by intros w. Qed.

Lemma preserves_raise {A} (e : JsError) : preserves I (raise (A := A) e).
Proof. by intros w. Qed.

Lemma preserves_gets {A} (f : World → A) : preserves I (gets f).
Proof. by intros w. Qed.

Lemma preserves_deref {A} (o : option A) : preserves I (deref o).
Proof. by destruct o; intros w. Qed.

Lemma preserves_this_element (this : Target) : preserves I (this_element this).
Proof. by destruct this; intros w. Qed.

Lemma preserves_modify (f : World → World) :
  (∀ w, I w → I (f w)) → preserves I (modify f).
Proof. intros Hf w. apply Hf. Qed.

Lemma preserves_bind {A B} (m : M A) (k : A → M B) :
  preserves I m → (∀ a, preserves I (k a)) → preserves I (bind m k).
Proof.
  intros Hm Hk w Hw. unfold bind. specialize (Hm w Hw).
  destruct (m w) as [[a|e] w']; [by apply Hk | done].
Qed.

Lemma preserves_forEach {A} (f : A → M unit) (l : list A) :
  (∀ a, preserves I (f a)) → preserves I (forEach f l).
Proof.
  intros Hf. induction l as [|a l IH]; simpl.
  - apply preserves_ret.
  - by apply preserves_bind.
Qed.

Lemma preserves_showToast (message : jsstr) (type : string) :
  (∀ w, I w → I (toasted message type w)) →
  preserves I (showToast message type).
Proof. intros Ht w Hw. rewrite showToast_run. by apply Ht. Qed.

End Preserves.

(** Reduce a statement about script code to statements about the state
    changes it is made of. *)
Ltac hoare_step :=
  lazymatch goal with
  | |- preserves _ (ret _) => apply preserves_ret
  | |- preserves _ (raise _) => apply preserves_raise
  | |- preserves _ (gets _) => apply preserves_gets
  | |- preserves _ (deref _) => apply preserves_deref
  | |- preserves _ (this_element _) => apply preserves_this_element
  | |- preserves _ (bind _ _) => apply preserves_bind; [|intros ?]
  | |- preserves _ (forEach _ _) => apply preserves_forEach; intros ?
  | |- preserves _ (match ?x with _ => _ end) => destruct x
  | |- preserves _ (if ?x then _ else _) => destruct x
  end.

Ltac hoare :=
  unfold onScrollNavbar, onSubmitTask, onInputTask, onMouseEnterTask,
    onMouseLeaveTask, onToggleClick, onDeleteClick, onLocationSubmit,
    onKeydown, onEmojiEnter, onEmojiLeave, animateWeatherEmoji,
    getElementById, querySelectorAll, querySelector, closest,
    querySelectorIn, nextElementSibling, read;
  repeat hoare_step.

Lemma preserves_forEach_in {A} (I : World → Prop) (f : A → M unit)
    (l : list A) :
  (∀ a, a ∈ l → preserves I (f a)) → preserves I (forEach f l).
Proof.
  induction l as [|a l IH]; intros Hf; simpl.
  - apply preserves_ret.
  - apply preserves_bind; [apply Hf; left|intros _].
    apply IH. intros b Hb. apply Hf. by right.
Qed.

Lemma fold_left_invariant {A B} (I : A → Prop) (f : A → B → A) (l : list B) :
  (∀ a b, I a → I (f a b)) → ∀ a, I a → I (fold_left f l a).
Proof. intros Hf. induction l as [|b l IH]; simpl; auto. Qed.

(** An invariant that does not depend on the clock, the timer queue, the
    scroll position or the event's [defaultPrevented] flag, and that every
    listener, every timer callback and the observer callback keep, holds
    whatever happens to the page. *)
Section Stable.
Context (sc : Script) (I : World → Prop).
Hypothesis I_prevented : ∀ b w, I w → I (set_prevented b w).
Hypothesis I_clock : ∀ t ts w, I w → I (set_now t (set_timers ts w)).
Hypothesis I_scroll : ∀ y w,
  I w → I (mkWorld (heap w) (doc w) (focus w) (location w) y (now w)
                   (timers w) (listeners w) (observed w) (answers w)
                   (dialogs w) (prevented w)).
Hypothesis I_handle : ∀ l this e, preserves I (handle sc l this e).
Hypothesis I_task : ∀ t, preserves I (run_task t).
Hypothesis I_observer : ∀ entries w, I w → I (deliver entries w).

Lemma dispatch_stable tg ty e w : I w → I (dispatch sc tg ty e w).
Proof.
  intros Hw. unfold dispatch. apply fold_left_invariant; [|by apply I_prevented].
  intros w' r Hw'. destruct (bool_decide _); [|done]. by apply I_handle.
Qed.

Lemma run_timers_stable fuel limit w : I w → I (run_timers fuel limit w).
Proof.
  revert w. induction fuel as [|fuel IH]; intros w Hw; simpl; [done|].
  destruct (pick (timers w)) as [[[d t] rest]|]; [|done].
  destruct (d <=? limit)%N; [|done].
  apply IH. unfold fire. apply I_task. by apply I_clock.
Qed.

Lemma wait_stable ms w : I w → I (wait ms w).
Proof.
  intros Hw. unfold wait, run_until.
  pose proof (run_timers_stable (total_weight (timers w)) (now w + ms) w Hw)
    as Hr.
  apply (I_clock (N.max (now (run_timers (total_weight (timers w))
                                         (now w + ms) w)) (now w + ms))
                 (timers (run_timers (total_weight (timers w))
                                     (now w + ms) w))) in Hr.
  by destruct (run_timers _ _ w).
Qed.

Lemma happen_stable h w : I w → I (happen sc h w).
Proof.
  intros Hw. destruct h; simpl.
  - by apply dispatch_stable.
  - by apply I_observer.
  - by apply dispatch_stable, I_scroll.
  - by apply wait_stable.
Qed.

Lemma happen_all_stable hs w : I w → I (happen_all sc hs w).
Proof. apply fold_left_invariant. intros a b. apply happen_stable. Qed.

End Stable.

Lemma preserves_and {A} (I J : World → Prop) (m : M A) :
  preserves I m → preserves J m → preserves (λ w, I w ∧ J w) m.
Proof. intros HI HJ w [Hi Hj]. split; [by apply HI | by apply HJ]. Qed.

Lemma preserves_removeChild_body (I : World → Prop) (i : nat) :
  (∀ d w, I w → I (set_doc d w)) → preserves I (removeChild_body i).
Proof.
  intros Hd w Hw. unfold removeChild_body.
  destruct (bool_decide _); [by apply Hd | done].
Qed.

(** ** Properties of single elements *)

Lemma holds_at_write (P : Element → Prop) (i : nat) (f : Element → Element)
    (j : nat) :
  (∀ e, P e → P (f e)) → preserves (holds_at P i) (write f j).
Proof.
  intros Hf w [Hlt HP]. destruct w. unfold holds_at in *. run.
  cbn [heap] in *. rewrite length_alter. split; [done|].
  destruct (decide (j = i)) as [->|Hne].
  - rewrite elem_at_alter_eq by done. by apply Hf.
  - by rewrite elem_at_alter_ne.
Qed.

Lemma holds_at_write_other (P : Element → Prop) (i : nat)
    (f : Element → Element) (j : nat) :
  j ≠ i → preserves (holds_at P i) (write f j).
Proof.
  intros Hne w [Hlt HP]. destruct w. unfold holds_at in *. run.
  cbn [heap] in *. rewrite length_alter. split; [done|].
  by rewrite elem_at_alter_ne.
Qed.

Lemma holds_at_toasted (P : Element → Prop) (i : nat) message type w :
  holds_at P i w → holds_at P i (toasted message type w).
Proof.
  intros [Hlt HP]. unfold holds_at, toasted in *. cbn [heap].
  rewrite length_app, elem_at_app_l by done. split; [lia|done].
Qed.

Lemma style_class_add (c : string) (e : Element) :
  style (class_add c e) = style e.
Proof. unfold class_add. by destruct (bool_decide _). Qed.

(** State changes that leave an invariant alone because they do not touch
    what it reads. *)
Ltac untouched :=
  let w := fresh "w" in
  let H := fresh "H" in
  lazymatch goal with
  | |- preserves _ (removeChild_body _) =>
      apply preserves_removeChild_body; intros ? w H; destruct w; exact H
  | |- preserves _ (showToast _ _) =>
      apply preserves_showToast; intros w H;
      first [ by apply holds_at_toasted | destruct w; exact H ]
  | |- preserves _ _ => intros w H; destruct w; exact H
  end.

(** Writes of the scripts that keep an element's inline style, or set one
    property of it. *)
Ltac style_write :=
  unfold setStyle, setInnerHTML, setDisabled, setClassName, classList_add,
    classList_remove;
  lazymatch goal with
  | |- preserves (holds_at _ _) (write _ _) =>
      apply holds_at_write; intros ? ?; destruct_and?;
      rewrite ?style_class_add;
      cbn [style with_style with_innerHTML with_disabled with_classes
           class_remove] in *;
      rewrite ?lookup_insert_eq, ?lookup_insert_ne by done; try done
  | |- _ => untouched
  end.

(** ** The toggle link of main.js *)

Lemma dimmed_handle item l this e :
  preserves (dimmed item) (handle MainJs l this e).
Proof.
  apply (preserves_and (holds_at _ item) (λ w, item ∉ observed w));
    destruct l; cbn [handle]; hoare; style_write.
Qed.

Lemma dimmed_run_task item t : preserves (dimmed item) (run_task t).
Proof.
  apply (preserves_and (holds_at _ item) (λ w, item ∉ observed w));
    destruct t; cbn [run_task]; hoare; style_write.
Qed.

Lemma dimmed_deliver item entries w :
  dimmed item w → dimmed item (deliver entries w).
Proof.
  intros Hw. unfold deliver, onIntersection.
  apply (preserves_forEach_in (dimmed item)); [|done].
  intros [i b] [Hi _]%list_elem_of_filter. cbn [fst snd] in *.
  assert (i ≠ item) as Hne by (intros ->; by destruct Hw).
  apply (preserves_and (holds_at _ item) (λ w, item ∉ observed w));
    hoare; unfold setStyle; first [by apply holds_at_write_other | untouched].
Qed.

Lemma dimmed_happen_all item hs w :
  dimmed item w → dimmed item (happen_all MainJs hs w).
Proof.
  apply happen_all_stable.
  - by intros b [].
  - by intros t ts [].
  - by intros y [].
  - apply dimmed_handle.
  - apply dimmed_run_task.
  - apply dimmed_deliver.
Qed.

(** [C10], as main.js has it.  A click on a toggle link inside a task item
    sets the item's transition and its opacity 0.5 and leaves the event's
    default alone.  The script sets an opacity in one other place, the
    observer callback; if the item is not an observed element, nothing that
    can happen to the page afterwards changes the opacity again. *)
Theorem toggle_click_dims_task_item (w : World) (link item : nat) :
  closest_match (SClass "task-item") link w = Some item →
  item < length (heap w) →
  let r := onToggleClick (TElem link) w in
  r.1 = Done tt
  ∧ prevented r.2 = prevented w
  ∧ style (elem_at (heap r.2) item) !! "transition" = Some "all 0.3s ease"
  ∧ opacity item r.2 = Some "0.5"
  ∧ (item ∉ observed w →
     ∀ hs, opacity item (happen_all MainJs hs r.2) = Some "0.5").
Proof.
  intros Hc Hlt. unfold onToggleClick. queries. rewrite Hc. queries.
  assert (∀ w0 : World,
            w0 = (setStyle "opacity" "0.5" item
                    (setStyle "transition" "all 0.3s ease" item w).2).2 →
            prevented w0 = prevented w
            ∧ style (elem_at (heap w0) item) !! "transition"
              = Some "all 0.3s ease"
            ∧ opacity item w0 = Some "0.5"
            ∧ observed w0 = observed w
            ∧ item < length (heap w0)) as Hrun.
  { intros w0 ->. destruct w. unfold opacity. run. cbn [heap] in Hlt.
    rewrite !length_alter.
    rewrite !elem_at_alter_eq by (by rewrite ?length_alter).
    cbn [style with_style].
    rewrite lookup_insert_eq, lookup_insert_ne by done.
    by rewrite lookup_insert_eq. }
  unfold setStyle, write, modify in *. cbn [fst snd] in *.
  destruct (Hrun _ eq_refl) as (Hp & Ht & Ho & Hobs & Hlt').
  split_and!; try done.
  intros Hn hs.
  apply (dimmed_happen_all item hs). split; [by split|by rewrite Hobs].
Qed.

Lemma toggle_click_dims_task_item_witness :
  let w := exec (initTaskInteractions MainJs) (Sample.parsed (lit "abc") []) in
  closest_match (SClass "task-item") 8 w = Some 6
  ∧ 6 < length (heap w)
  ∧ (onToggleClick (TElem 8) w).1 = Done tt.
Proof.
  assert (H1 : closest_match (SClass "task-item") 8
                 (exec (initTaskInteractions MainJs)
                       (Sample.parsed (lit "abc") [])) = Some 6)
    by (vm_compute; reflexivity).
  assert (H2 : 6 < length (heap (exec (initTaskInteractions MainJs)
                                      (Sample.parsed (lit "abc") []))))
    by (vm_compute; lia).
  exact (conj H1 (conj H2
           (proj1 (toggle_click_dims_task_item _ 8 6 H1 H2)))).
Defined.

(** Against [C10] as the specification words it: the task item of the sample
    page is also an animated element, and the observer callback sets the
    opacity of a dimmed item back to 1 when the item is reported again. *)
Lemma observer_restores_dimmed_item :
  let w := Sample.page MainJs (lit "abc") [] in
  let w1 := dispatch MainJs (TElem 8) "click" plain_event w in
  let w2 := deliver [(6, true)] w1 in
  opacity 6 w1 = Some "0.5"
  ∧ prevented w1 = false
  ∧ opacity 6 w2 = Some "1".
Proof. vm_compute. repeat split. Qed.

(** ** Reveal on view *)

Lemma onIntersection_cons (en : nat * bool) entries w :
  exec (onIntersection (en :: entries)) w
  = exec (onIntersection entries)
         (if en.2
          then set_heap (alter (with_style "transform" "translateY(0)") en.1)
                 (set_heap (alter (with_style "opacity" "1") en.1) w)
          else w).
Proof. destruct en as [i []]; reflexivity. Qed.

Lemma onIntersection_observed entries w :
  observed (exec (onIntersection entries) w) = observed w.
Proof.
  revert w. induction entries as [|en entries IH]; intros w; [done|].
  rewrite onIntersection_cons, IH. by destruct (en.2), w.
Qed.

Lemma onIntersection_length entries w :
  length (heap (exec (onIntersection entries) w)) = length (heap w).
Proof.
  revert w. induction entries as [|en entries IH]; intros w; [done|].
  rewrite onIntersection_cons, IH. destruct (en.2), w; [|done].
  cbn [set_heap heap]. by rewrite !length_alter.
Qed.

Lemma onIntersection_revealed entries i :
  preserves (revealed i) (onIntersection entries).
Proof.
  enough (preserves
            (holds_at (λ e, style e !! "opacity" = Some "1"
                            ∧ style e !! "transform" = Some "translateY(0)")
                      i)
            (onIntersection entries)) as H by exact H.
  unfold onIntersection. hoare; style_write.
Qed.

Lemma onIntersection_reveals entries i w :
  (i, true) ∈ entries → i < length (heap w) →
  revealed i (exec (onIntersection entries) w).
Proof.
  revert w. induction entries as [|en entries IH]; intros w Hin Hlt.
  - by apply elem_of_nil in Hin.
  - rewrite onIntersection_cons.
    apply elem_of_cons in Hin as [<-|Hin].
    + apply onIntersection_revealed. destruct w. unfold revealed, holds_at.
      cbn [snd fst set_heap heap] in *. rewrite !length_alter.
      rewrite !elem_at_alter_eq by (by rewrite ?length_alter).
      cbn [style with_style].
      rewrite lookup_insert_ne, !lookup_insert_eq by done. done.
    + apply IH; [done|]. destruct (en.2), w; [|done].
      cbn [set_heap heap] in *. by rewrite !length_alter.
Qed.

Lemma onIntersection_elsewhere entries i w :
  (i, true) ∉ entries →
  elem_at (heap (exec (onIntersection entries) w)) i = elem_at (heap w) i.
Proof.
  revert w. induction entries as [|en entries IH]; intros w Hin; [done|].
  apply not_elem_of_cons in Hin as [Hne Hin].
  rewrite onIntersection_cons, IH by done.
  destruct en as [j []], w; [|done]. cbn [fst snd set_heap heap].
  assert (j ≠ i) by congruence. by rewrite !elem_at_alter_ne.
Qed.

(** [C3], as the scripts have it.  Whenever an observed element is reported as
    intersecting, the callback sets its opacity to 1 and its transform to
    the zero offset; an element that is not reported as intersecting, or is
    not observed, is left as it is, so a report never un-reveals.  The
    callback does not stop the observation: the observed elements are the
    same after every report. *)
Theorem observer_reveals_and_keeps_observing
    (entries : list (nat * bool)) (w : World) :
  let w' := deliver entries w in
  observed w' = observed w
  ∧ (∀ i, (i, true) ∈ entries → i ∈ observed w → i < length (heap w) →
          revealed i w')
  ∧ (∀ i, revealed i w → revealed i w')
  ∧ (∀ i, (i, true) ∉ entries ∨ i ∉ observed w →
          elem_at (heap w') i = elem_at (heap w) i).
Proof.
  unfold deliver. split_and!.
  - apply onIntersection_observed.
  - intros i Hin Hobs Hlt. apply onIntersection_reveals; [|done].
    by apply list_elem_of_filter.
  - intros i. apply onIntersection_revealed.
  - intros i Hi. apply onIntersection_elsewhere.
    intros [Hobs Hin]%list_elem_of_filter. by destruct Hi.
Qed.

(** Against [C3] as the specification words it: after its first reveal the
    task item of the sample page is still observed; hovering it replaces
    the revealed transform, and the next report sets it again. *)
Lemma observer_keeps_watching_revealed_element :
  let transform i w := style (elem_at (heap w) i) !! "transform" in
  let w := Sample.page MinimalJs (lit "abc") [] in
  let w1 := deliver [(6, true)] w in
  let w2 := dispatch MinimalJs (TElem 6) "mouseenter" plain_event w1 in
  let w3 := deliver [(6, true)] w2 in
  observed w1 = [6]
  ∧ transform 6 w = Some "translateY(30px)"
  ∧ transform 6 w1 = Some "translateY(0)"
  ∧ transform 6 w2 = Some "translateX(8px)"
  ∧ transform 6 w3 = Some "translateY(0)".
Proof. vm_compute. repeat split. Qed.

(** ** Absent elements *)

(** [C4], where the code departs from it.  On a page without a
    [.navbar-custom] element [initNavbar] of the minimal script still
    registers its scroll listener, with a null [navbar]; every scroll event
    then ends the listener with a TypeError, before it changes anything. *)
Theorem scroll_without_navbar_raises (w : World) :
  elements_matching (SClass "navbar-custom") w = [] →
  let r := initNavbar w in
  r.1 = Done tt
  ∧ listeners r.2 = listeners w ++ [(TWindow, "scroll", OnScrollNavbar None)]
  ∧ ∀ e w', handle MinimalJs (OnScrollNavbar None) TWindow e w'
            = (Raise TypeError, w').
Proof.
  intros Hq. unfold initNavbar. queries. rewrite Hq.
  by destruct w.
Qed.

Lemma scroll_without_navbar_raises_witness :
  let w := mkWorld [Sample.el "body" "" []] (Node 0 []) None
                   "http://localhost:5000/" 0 0 [] [] [] [] [] false in
  elements_matching (SClass "navbar-custom") w = []
  ∧ (initNavbar w).1 = Done tt.
Proof.
  assert (H : elements_matching (SClass "navbar-custom")
                (mkWorld [Sample.el "body" "" []] (Node 0 []) None
                         "http://localhost:5000/" 0 0 [] [] [] [] [] false)
              = []) by reflexivity.
  exact (conj H (proj1 (scroll_without_navbar_raises _ H))).
Defined.

(** ** The timer queue *)

Lemma pick_None (ts : list (N * Task)) : pick ts = None → ts = [].
Proof.
  destruct ts as [|t r]; [done|]. simpl.
  destruct (pick r) as [[m r']|]; [|done]. by destruct (m.1 <? t.1)%N.
Qed.

(** [pick] takes out the first of the earliest timers. *)
Lemma pick_spec (ts : list (N * Task)) x rest :
  pick ts = Some (x, rest) →
  ∃ l1 l2, ts = l1 ++ x :: l2 ∧ rest = l1 ++ l2
           ∧ Forall (λ y, (x.1 < y.1)%N) l1
           ∧ Forall (λ y, (x.1 ≤ y.1)%N) l2.
Proof.
  revert x rest. induction ts as [|t r IH]; intros x rest; [done|]. simpl.
  destruct (pick r) as [[m r']|] eqn:Hp.
  - destruct (IH m r' eq_refl) as (l1 & l2 & -> & -> & H1 & H2).
    destruct (m.1 <? t.1)%N eqn:Hlt; intros [= <- <-].
    + apply N.ltb_lt in Hlt. exists (t :: l1), l2.
      split_and!; try done. by constructor.
    + apply N.ltb_ge in Hlt. exists [], (l1 ++ m :: l2).
      split_and!; try done. apply Forall_app. split.
      * eapply Forall_impl; [exact H1|]. intros y Hy; simpl in *. lia.
      * constructor; [done|].
        eapply Forall_impl; [exact H2|]. intros y Hy; simpl in *. lia.
  - apply pick_None in Hp as ->. intros [= <- <-].
    by exists [], [].
Qed.

Lemma total_weight_app (l1 l2 : list (N * Task)) :
  total_weight (l1 ++ l2) = total_weight l1 + total_weight l2.
Proof.
  unfold total_weight. induction l1 as [|a l1 IH]; simpl; [done|].
  rewrite IH. lia.
Qed.

Lemma weight_pos (t : Task) : 0 < weight t.
Proof. destruct t; simpl; lia. Qed.

Lemma total_weight_nil (ts : list (N * Task)) : total_weight ts = 0 → ts = [].
Proof.
  destruct ts as [|[d t] r]; [done|]. unfold total_weight; simpl.
  pose proof (weight_pos t). lia.
Qed.

(** What a timer callback does to the clock and the queue. *)
Lemma run_task_timers (t : Task) (w : World) :
  timers (exec (run_task t) w) = timers w ++ spawned t (now w)
  ∧ now (exec (run_task t) w) = now w.
Proof.
  destruct t; cbn [run_task spawned]; rewrite ?app_nil_r.
  - by destruct w.
  - by destruct w.
  - unfold exec, removeChild_body. by destruct (bool_decide _), w.
  - by destruct w.
  - unfold exec, animateWeatherEmoji. queries.
    by destruct (head (elements_matching _ w)), w.
Qed.

Lemma fire_timers d t rest w :
  timers (fire d t rest w) = rest ++ spawned t (N.max (now w) d)
  ∧ now (fire d t rest w) = N.max (now w) d.
Proof.
  unfold fire. destruct (run_task_timers t
                  (set_now (N.max (now w) d) (set_timers rest w))) as [-> ->].
  by destruct w.
Qed.

Lemma fire_weight d t rest w :
  pick (timers w) = Some ((d, t), rest) →
  total_weight (timers (fire d t rest w)) < total_weight (timers w).
Proof.
  intros (l1 & l2 & -> & -> & _)%pick_spec.
  rewrite (proj1 (fire_timers _ _ _ _)), !total_weight_app.
  change (total_weight ((d, t) :: l2)) with (weight t + total_weight l2).
  destruct t; unfold total_weight; simpl; lia.
Qed.

(** With the fuel of [run_until] no timer that is due stays behind. *)
Lemma run_timers_drains fuel limit w :
  (total_weight (timers w) ≤ fuel)%nat →
  Forall (λ p, (limit < p.1)%N) (timers (run_timers fuel limit w)).
Proof.
  revert w. induction fuel as [|fuel IH]; intros w Hw; simpl.
  - assert (total_weight (timers w) = 0) as ->%total_weight_nil by lia.
    constructor.
  - destruct (pick (timers w)) as [[[d t] rest]|] eqn:Hp.
    + destruct (d <=? limit)%N eqn:Hd.
      * apply IH. pose proof (fire_weight _ _ _ _ Hp). lia.
      * apply N.leb_gt in Hd.
        apply pick_spec in Hp as (l1 & l2 & -> & _ & H1 & H2).
        apply Forall_app. split; [|constructor].
        -- eapply Forall_impl; [exact H1|]. intros y Hy; simpl in *. lia.
        -- done.
        -- eapply Forall_impl; [exact H2|]. intros y Hy; simpl in *. lia.
    + apply pick_None in Hp as ->. constructor.
Qed.

(** ** The life of a toast *)

Lemma has_class_class_add_ne (c c' : string) (e : Element) :
  c ≠ c' → has_class c' (class_add c e) = has_class c' e.
Proof.
  intros Hne. unfold class_add, has_class.
  destruct (bool_decide (c ∈ classes e)); [done|]. cbn [classes with_classes].
  apply bool_decide_ext. rewrite elem_of_app, list_elem_of_singleton.
  split; [intros [?|?]; [done|congruence] | by left].
Qed.

Lemma has_class_class_remove_ne (c c' : string) (e : Element) :
  c ≠ c' → has_class c' (class_remove c e) = has_class c' e.
Proof.
  intros Hne. unfold class_remove, has_class. cbn [classes with_classes].
  apply bool_decide_ext. rewrite list_elem_of_filter.
  split; [by intros [_ ?] | intros ?; split; [congruence|done]].
Qed.

Lemma toast_frame_write X v t (f : Element → Element) (j : nat) :
  (∀ e, has_class "show" (f e) = has_class "show" e) →
  preserves (toast_frame X v t) (write f j).
Proof.
  intros Hf w (Hlt & Hal & Hs & Hn & Hv). destruct w.
  unfold toast_frame, allocated, settled, toast_view, pending, shown,
    attached in *.
  run. cbn [heap doc now timers] in *. rewrite length_alter.
  split_and!; try done. rewrite <- Hv. do 2 f_equal.
  destruct (decide (j = X)) as [->|Hne].
  - by rewrite elem_at_alter_eq.
  - by rewrite elem_at_alter_ne.
Qed.

Lemma toast_frame_toasted X v t message type w :
  toast_frame X v t w → toast_frame X v t (toasted message type w).
Proof.
  intros (Hlt & Hal & Hs & Hn & Hv). destruct w.
  unfold toast_frame, allocated, settled, toast_view, pending, shown,
    attached, toasted, body in *.
  cbn [heap doc now timers children] in *. rewrite length_app.
  assert (length heap0 ≠ X) as Hne by lia.
  split_and!; try done.
  - lia.
  - apply Forall_app. split.
    + eapply Forall_impl; [exact Hal|]. intros p Hp i Hi.
      specialize (Hp i Hi). lia.
    + repeat constructor; simpl; intros i Hi;
        assert (i = length heap0) as -> by congruence; simpl; lia.
  - apply Forall_app. split; [done|]. repeat constructor; simpl; lia.
  - rewrite <- Hv, filter_app.
    rewrite !filter_cons_False by (simpl; congruence).
    rewrite filter_nil, app_nil_r, elem_at_app_l by done. do 2 f_equal.
    apply bool_decide_ext. rewrite map_app, elem_of_app. simpl.
    rewrite list_elem_of_singleton.
    split; [intros [?|?]; [done|lia] | by left].
Qed.

Lemma toast_frame_navigate X v t (link : nat) :
  preserves (toast_frame X v t) (setTimeout (Navigate link) 500).
Proof.
  intros w (Hlt & Hal & Hs & Hn & Hv). destruct w.
  unfold toast_frame, allocated, settled, toast_view, pending, shown,
    attached in *.
  run. cbn [heap doc now timers] in *.
  split_and!; try done.
  - apply Forall_app. split; [done|]. by repeat constructor.
  - apply Forall_app. split; [done|]. repeat constructor; simpl; lia.
  - rewrite filter_app. rewrite filter_cons_False by done.
    by rewrite filter_nil, app_nil_r.
Qed.

(** The state changes of the listeners, none of which touches a toast. *)
Ltac toast_frame_leaf :=
  unfold setStyle, setInnerHTML, setDisabled, classList_add, classList_remove;
  lazymatch goal with
  | |- preserves (toast_frame _ _ _) (write _ _) =>
      apply toast_frame_write; intros ?;
      first [ done
            | by apply has_class_class_add_ne
            | by apply has_class_class_remove_ne ]
  | |- preserves _ (showToast _ _) =>
      apply preserves_showToast; intros ?; apply toast_frame_toasted
  | |- preserves _ (setTimeout (Navigate _) _) => apply toast_frame_navigate
  | |- _ => untouched
  end.

Lemma toast_frame_handle sc X v t l this e :
  preserves (toast_frame X v t) (handle sc l this e).
Proof. destruct sc, l; cbn [handle]; hoare; toast_frame_leaf. Qed.

Lemma toast_frame_deliver X v t entries w :
  toast_frame X v t w → toast_frame X v t (deliver entries w).
Proof.
  intros Hw. unfold deliver.
  refine ((_ : preserves (toast_frame X v t) (onIntersection _)) w Hw).
  unfold onIntersection. hoare; toast_frame_leaf.
Qed.

Lemma toast_frame_dispatch sc X v t tg ty e w :
  toast_frame X v t w → toast_frame X v t (dispatch sc tg ty e w).
Proof.
  apply dispatch_stable.
  - by intros b [].
  - apply toast_frame_handle.
Qed.

Lemma has_class_class_add (c : string) (e : Element) :
  has_class c (class_add c e) = true.
Proof.
  unfold class_add, has_class.
  destruct (bool_decide (c ∈ classes e)) eqn:Hc; [done|].
  cbn [classes with_classes]. apply bool_decide_eq_true_2.
  apply elem_of_app. right. by apply list_elem_of_singleton.
Qed.

Lemma has_class_class_remove (c : string) (e : Element) :
  has_class c (class_remove c e) = false.
Proof.
  unfold class_remove, has_class. cbn [classes with_classes].
  apply bool_decide_eq_false_2. rewrite list_elem_of_filter. by intros [? _].
Qed.

(** What a timer callback does to the arena and to the document. *)
Lemma fire_heap d t rest w :
  heap (fire d t rest w)
  = match t with
    | ToastShow i => alter (class_add "show") i (heap w)
    | ToastHide i => alter (class_remove "show") i (heap w)
    | _ => heap w
    end.
Proof.
  unfold fire. destruct t; cbn [run_task].
  - by destruct w.
  - by destruct w.
  - unfold exec, removeChild_body. by destruct (bool_decide _), w.
  - by destruct w.
  - unfold exec, animateWeatherEmoji. queries.
    by destruct (head (elements_matching _ _)), w.
Qed.

Lemma fire_attached X d t rest w :
  attached X (fire d t rest w)
  = match t with
    | ToastRemove i => if decide (i = X) then false else attached X w
    | _ => attached X w
    end.
Proof.
  unfold fire, attached. destruct t; cbn [run_task].
  - by destruct w.
  - by destruct w.
  - unfold exec, removeChild_body.
    destruct (bool_decide (toast ∈ _)) eqn:Hin; destruct w;
      cbn [doc set_now set_timers set_doc children snd] in *.
    + destruct (decide (toast = X)) as [->|Hne].
      * apply bool_decide_eq_false_2. rewrite list_elem_of_fmap.
        intros (k & -> & [Hk _]%list_elem_of_filter). done.
      * apply bool_decide_ext. rewrite !list_elem_of_fmap.
        split; intros (k & -> & Hk); exists k; (split; [done|]).
        -- by apply list_elem_of_filter in Hk as [_ ?].
        -- apply list_elem_of_filter. split; [congruence|done].
    + destruct (decide (toast = X)) as [->|Hne]; done.
  - by destruct w.
  - unfold exec, animateWeatherEmoji. queries.
    by destruct (head (elements_matching _ _)), w.
Qed.

Lemma fire_shown X d t rest w :
  X < length (heap w) →
  shown X (fire d t rest w)
  = match t with
    | ToastShow i => if decide (i = X) then true else shown X w
    | ToastHide i => if decide (i = X) then false else shown X w
    | _ => shown X w
    end.
Proof.
  intros Hlt. unfold shown. rewrite fire_heap.
  destruct t; try done; destruct (decide (_ = X)) as [->|Hne];
    rewrite ?elem_at_alter_eq, ?elem_at_alter_ne by done;
    auto using has_class_class_add, has_class_class_remove.
Qed.

Lemma phase_later X t0 w w' :
  toast_view X w' = toast_view X w → (now w ≤ now w')%N →
  phase X t0 w → phase X t0 w'.
Proof.
  unfold toast_view. intros [= Hp Hs Ha] Hn.
  destruct 1; [apply Inserted|apply Visible|apply Hidden|apply Removed];
    congruence || lia.
Qed.

(** One turn of the timer loop takes the toast to its next phase when the
    callback is the toast's, and leaves it alone otherwise. *)
Lemma fire_phase X t0 d t rest w :
  X < length (heap w) → on_time w → allocated w → phase X t0 w →
  pick (timers w) = Some ((d, t), rest) →
  let w' := fire d t rest w in
  X < length (heap w') ∧ on_time w' ∧ allocated w' ∧ phase X t0 w'.
Proof.
  intros Hlt Hot Hal Hph (l1 & l2 & Hts & -> & H1 & H2)%pick_spec.
  cbv zeta.
  assert (now w ≤ d)%N as Hd.
  { unfold on_time in Hot. rewrite Hts in Hot.
    apply Forall_app in Hot as [_ Hot]. by inversion Hot. }
  destruct (fire_timers d t (l1 ++ l2) w) as [Htm Hnow].
  rewrite N.max_r in Htm, Hnow by done.
  assert (length (heap (fire d t (l1 ++ l2) w)) = length (heap w)) as Hlen.
  { rewrite fire_heap. destruct t; by rewrite ?length_alter. }
  split_and!.
  - by rewrite Hlen.
  - unfold on_time. rewrite Htm, Hnow. rewrite !Forall_app. split_and!.
    + eapply Forall_impl; [exact H1|]. intros y Hy; simpl in *. lia.
    + done.
    + destruct t; repeat constructor; simpl; lia.
  - unfold allocated in *. rewrite Htm, Hlen. rewrite Hts in Hal.
    rewrite !Forall_app in *. destruct Hal as [Ha1 Ha2].
    inversion Ha2 as [|? ? Hat Ha2']; subst. split_and!; try done.
    destruct t; repeat constructor. done.
  - assert (pending X w
            = filter (λ p, toast_of p.2 = Some X) l1
              ++ (if decide (toast_of t = Some X) then [(d, t)] else [])
              ++ filter (λ p, toast_of p.2 = Some X) l2) as Hpw.
    { unfold pending. rewrite Hts, filter_app, filter_cons. simpl.
      by destruct (decide (toast_of t = Some X)). }
    assert (pending X (fire d t (l1 ++ l2) w)
            = filter (λ p, toast_of p.2 = Some X) l1
              ++ filter (λ p, toast_of p.2 = Some X) l2
              ++ filter (λ p, toast_of p.2 = Some X) (spawned t d)) as Hpw'.
    { unfold pending. by rewrite Htm, !filter_app, app_assoc. }
    pose proof (fire_shown X d t (l1 ++ l2) w Hlt) as Hsh.
    pose proof (fire_attached X d t (l1 ++ l2) w) as Hat.
    assert (Forall (λ y, (d < y.1)%N)
                   (filter (λ p, toast_of p.2 = Some X) l1)) as Hf1.
    { apply Forall_forall. intros y [_ Hy]%list_elem_of_filter.
      rewrite Forall_forall in H1. by apply H1. }
    revert Hpw Hpw' Hf1.
    generalize (filter (λ p, toast_of p.2 = Some X) l1) as f1.
    generalize (filter (λ p, toast_of p.2 = Some X) l2) as f2.
    intros f2 f1 Hpw Hpw' Hf1.
    destruct (decide (toast_of t = Some X)) as [Ht|Ht].
    + destruct Hph as [Hp Hs Ha|Hp Hs Ha Hn|Hp Hs Ha Hn|Hp Hs Ha Hn];
        rewrite Hpw in Hp.
      * destruct f1 as [|y [|z f1]]; inversion Hp; subst.
        -- apply Visible.
           ++ by rewrite Hpw'.
           ++ rewrite Hsh. by rewrite decide_True.
           ++ by rewrite Hat.
           ++ rewrite Hnow. lia.
        -- inversion Hf1; simpl in *; lia.
        -- by destruct f1.
      * destruct f1 as [|y f1]; inversion Hp; subst.
        -- apply Hidden.
           ++ rewrite Hpw'. simpl. rewrite filter_cons_True by done.
              rewrite filter_nil. do 2 f_equal. lia.
           ++ rewrite Hsh. by rewrite decide_True.
           ++ by rewrite Hat.
           ++ rewrite Hnow. lia.
        -- by destruct f1.
      * destruct f1 as [|y f1]; inversion Hp; subst.
        -- apply Removed.
           ++ by rewrite Hpw'.
           ++ by rewrite Hsh.
           ++ rewrite Hat. by rewrite decide_True.
           ++ rewrite Hnow. lia.
        -- by destruct f1.
      * by destruct f1.
    + apply (phase_later X t0 w); [|lia|done].
      unfold toast_view. rewrite Hpw', Hpw, Hsh, Hat. simpl.
      assert (filter (λ p, toast_of p.2 = Some X) (spawned t d) = []) as ->.
      { destruct t; try done. simpl. by rewrite filter_cons_False. }
      rewrite app_nil_r.
      destruct t; simpl in Ht; try done;
        by rewrite decide_False by congruence.
Qed.

Lemma run_timers_phase X t0 limit fuel w :
  X < length (heap w) → on_time w → allocated w → phase X t0 w →
  (now w ≤ limit)%N →
  let w' := run_timers fuel limit w in
  X < length (heap w') ∧ on_time w' ∧ allocated w' ∧ phase X t0 w'
  ∧ (now w' ≤ limit)%N.
Proof.
  revert w. induction fuel as [|fuel IH]; intros w Hlt Hot Hal Hph Hn; simpl.
  - done.
  - destruct (pick (timers w)) as [[[d t] rest]|] eqn:Hp; [|done].
    destruct (d <=? limit)%N eqn:Hd; [|done]. apply N.leb_le in Hd.
    destruct (fire_phase X t0 d t rest w Hlt Hot Hal Hph Hp)
      as (Hlt' & Hot' & Hal' & Hph').
    apply IH; try done.
    rewrite (proj2 (fire_timers d t rest w)). lia.
Qed.

Lemma settled_on_time w : settled w → on_time w.
Proof.
  unfold settled, on_time. intros H.
  eapply Forall_impl; [exact H|]. intros p Hp. simpl in *. lia.
Qed.

Lemma wait_lifecycle X t0 ms w :
  lifecycle X t0 w → lifecycle X t0 (wait ms w).
Proof.
  intros (Hlt & Hal & Hs & Hph). unfold wait, run_until.
  pose proof (run_timers_drains (total_weight (timers w)) (now w + ms) w
                (le_n _)) as Hdr.
  destruct (run_timers_phase X t0 (now w + ms) (total_weight (timers w)) w)
    as (Hlt' & Hot' & Hal' & Hph' & Hn'); try done.
  { by apply settled_on_time. }
  { lia. }
  revert Hdr Hlt' Hal' Hph' Hn'.
  generalize (run_timers (total_weight (timers w)) (now w + ms) w) as w1.
  intros w1 Hdr Hlt' Hal' Hph' Hn'. rewrite N.max_r by done.
  split_and!.
  - by destruct w1.
  - by destruct w1.
  - unfold settled. by destruct w1.
  - apply (phase_later X t0 w1); [by destruct w1| by destruct w1 |done].
Qed.

Lemma lifecycle_frame X t0 w w' :
  lifecycle X t0 w →
  toast_frame X (toast_view X w) (now w) w' →
  lifecycle X t0 w'.
Proof.
  intros (Hlt & Hal & Hs & Hph) (Hlt' & Hal' & Hs' & Hn' & Hv').
  split_and!; try done. apply (phase_later X t0 w); [done|lia|done].
Qed.

Lemma lifecycle_happen sc X t0 h w :
  lifecycle X t0 w → lifecycle X t0 (happen sc h w).
Proof.
  intros Hw.
  assert (toast_frame X (toast_view X w) (now w) w) as Hf.
  { destruct Hw as (Hlt & Hal & Hs & Hph). by split_and!. }
  destruct h; simpl.
  - by apply (lifecycle_frame X t0 w), toast_frame_dispatch.
  - by apply (lifecycle_frame X t0 w), toast_frame_deliver.
  - apply (lifecycle_frame X t0 w); [done|].
    apply toast_frame_dispatch. by destruct w.
  - by apply wait_lifecycle.
Qed.

Lemma filter_none {A} (P : A → Prop) `{∀ x, Decision (P x)} (l : list A) :
  Forall (λ x, ¬ P x) l → filter P l = [].
Proof.
  induction 1 as [|x l Hx Hl IH]; [done|].
  by rewrite filter_cons_False.
Qed.

Lemma lifecycle_toasted message type w :
  settled w → allocated w →
  has_class "show" (toast_element message type) = false →
  lifecycle (length (heap w)) (now w) (toasted message type w).
Proof.
  intros Hs Hal Hcl. destruct w.
  unfold lifecycle, settled, allocated, toasted in *.
  cbn [heap doc now timers] in *. rewrite length_app. split_and!.
  - simpl. lia.
  - apply Forall_app. split.
    + eapply Forall_impl; [exact Hal|]. intros p Hp i Hi.
      specialize (Hp i Hi). lia.
    + repeat constructor; simpl; intros i Hi;
        assert (i = length heap0) as -> by congruence; simpl; lia.
  - apply Forall_app. split; [done|]. repeat constructor; simpl; lia.
  - apply Inserted.
    + unfold pending. cbn [timers]. rewrite filter_app.
      rewrite !filter_cons_True by done. rewrite filter_nil.
      rewrite filter_none; [done|].
      eapply Forall_impl; [exact Hal|]. intros p Hp Hi.
      specialize (Hp _ Hi). lia.
    + unfold shown. cbn [heap]. unfold elem_at.
      by rewrite lookup_app_r, Nat.sub_diag.
    + unfold attached. cbn [doc children]. apply bool_decide_eq_true_2.
      rewrite map_app, elem_of_app. right. simpl. by left.
Qed.

Lemma lifecycle_observed X t0 w :
  lifecycle X t0 w →
  shown X w = ((t0 + 100 <=? now w) && (now w <? t0 + 3000))%N
  ∧ attached X w = (now w <? t0 + 3300)%N.
Proof.
  intros (Hlt & Hal & Hs & Hph).
  assert (∀ p, p ∈ pending X w → (now w < p.1)%N) as Hdue.
  { intros p [_ Hp]%list_elem_of_filter. unfold settled in Hs.
    rewrite Forall_forall in Hs. by apply Hs. }
  destruct Hph as [Hp -> ->|Hp -> -> Hn|Hp -> -> Hn|Hp -> -> Hn];
    rewrite Hp in Hdue.
  - pose proof (Hdue _ (list_elem_of_here _ _)) as H1. simpl in H1.
    split; symmetry.
    + apply andb_false_iff. left. apply N.leb_gt. lia.
    + apply N.ltb_lt. lia.
  - pose proof (Hdue _ (list_elem_of_here _ _)) as H1. simpl in H1.
    split; symmetry.
    + apply andb_true_iff. split; [apply N.leb_le|apply N.ltb_lt]; lia.
    + apply N.ltb_lt. lia.
  - pose proof (Hdue _ (list_elem_of_here _ _)) as H1. simpl in H1.
    split; symmetry.
    + apply andb_false_iff. right. apply N.ltb_ge. lia.
    + apply N.ltb_lt. lia.
  - split; symmetry.
    + apply andb_false_iff. right. apply N.ltb_ge. lia.
    + apply N.ltb_ge. lia.
Qed.

Lemma lifecycle_happen_all sc X t0 hs w :
  lifecycle X t0 w → lifecycle X t0 (happen_all sc hs w).
Proof. apply fold_left_invariant. intros a b. apply lifecycle_happen. Qed.

(** [C2], as the scripts have it.  Both timers of a toast are set when it is
    created, so the times count from the creation: whatever else happens to
    the page, the toast is shown from 100 ms to 3000 ms after its creation,
    and it is on the page until 3300 ms after its creation, not 3400.  This
    is for a page between two turns of the event loop, and for a category
    that does not spell the class [show] itself. *)
Theorem toast_lifecycle
    (sc : Script) (message : jsstr) (type : string) (w : World)
    (hs : list Happening) :
  settled w → allocated w →
  has_class "show" (toast_element message type) = false →
  let toast := length (heap w) in
  let w' := happen_all sc hs (exec (showToast message type) w) in
  shown toast w'
  = ((now w + 100 <=? now w') && (now w' <? now w + 3000))%N
  ∧ attached toast w' = (now w' <? now w + 3300)%N.
Proof.
  intros Hs Hal Hcl. cbv zeta. unfold exec. rewrite showToast_run.
  apply lifecycle_observed, lifecycle_happen_all.
  by apply lifecycle_toasted.
Qed.

Lemma toast_lifecycle_witness :
  let w := Sample.page MainJs (lit "abc") [] in
  let hs := [Passes 100; Fires (TElem 6) "mouseenter" plain_event;
             Passes 2900] in
  settled w ∧ allocated w
  ∧ has_class "show" (toast_element Text.analyzing "info") = false
  ∧ (let toast := length (heap w) in
     let w' := happen_all MainJs hs (exec (showToast Text.analyzing "info") w)
     in
     shown toast w'
     = ((now w + 100 <=? now w') && (now w' <? now w + 3000))%N
     ∧ attached toast w' = (now w' <? now w + 3300)%N).
Proof.
  assert (H1 : settled (Sample.page MainJs (lit "abc") []))
    by (vm_compute; repeat constructor).
  assert (H2 : allocated (Sample.page MainJs (lit "abc") []))
    by (vm_compute; repeat constructor; discriminate).
  assert (H3 : has_class "show" (toast_element Text.analyzing "info") = false)
    by (vm_compute; reflexivity).
  exact (conj H1 (conj H2 (conj H3
           (toast_lifecycle MainJs Text.analyzing "info" _
              [Passes 100; Fires (TElem 6) "mouseenter" plain_event;
               Passes 2900] H1 H2 H3)))).
Defined.

(** Against [C2] as the specification words it: a toast created at time 0 is
    shown at 100 ms, hidden at 3000 ms and off the page at 3300 ms. *)
Lemma toast_is_removed_after_3300 :
  let w := exec (showToast Text.analyzing "info")
                (Sample.page MinimalJs (lit "abc") []) in
  shown 11 (wait 99 w) = false
  ∧ shown 11 (wait 100 w) = true
  ∧ shown 11 (wait 2999 w) = true
  ∧ shown 11 (wait 3000 w) = false
  ∧ attached 11 (wait 3299 w) = true
  ∧ attached 11 (wait 3300 w) = false.
Proof. vm_compute. repeat split. Qed.

(** ** Deleting a task *)

Lemma app_cons_split {A} (pre post l1 l2 : list A) (a x : A) :
  pre ++ a :: post = l1 ++ x :: l2 →
  (∃ m, pre = l1 ++ x :: m ∧ l2 = m ++ a :: post)
  ∨ (pre = l1 ∧ a = x ∧ post = l2)
  ∨ (∃ m, l1 = pre ++ a :: m ∧ post = m ++ x :: l2).
Proof.
  revert l1. induction pre as [|b pre IH]; intros [|y l1] H; simpl in *;
    inversion H; subst.
  - right. by left.
  - right. right. by exists l1.
  - left. by exists pre.
  - destruct (IH l1) as [(m & -> & ->)|[(-> & -> & ->)|(m & -> & ->)]];
      [done| | |].
    + left. by exists m.
    + right. by left.
    + right. right. by exists m.
Qed.

Lemma fire_location d t rest w :
  location (fire d t rest w)
  = match t with
    | Navigate link => href (elem_at (heap w) link)
    | _ => location w
    end.
Proof.
  unfold fire. destruct t; cbn [run_task].
  - by destruct w.
  - by destruct w.
  - unfold exec, removeChild_body. by destruct (bool_decide _), w.
  - by destruct w.
  - unfold exec, animateWeatherEmoji. queries.
    by destruct (head (elements_matching _ _)), w.
Qed.

Lemma fire_href d t rest w i :
  href (elem_at (heap (fire d t rest w)) i) = href (elem_at (heap w) i).
Proof.
  rewrite fire_heap. destruct t; try done.
  - destruct (decide (toast = i)) as [->|Hne];
      [|by rewrite elem_at_alter_ne].
    unfold elem_at. rewrite list_lookup_alter_eq.
    destruct (heap w !! i); [|done]. simpl. unfold class_add.
    by destruct (bool_decide _).
  - destruct (decide (toast = i)) as [->|Hne];
      [|by rewrite elem_at_alter_ne].
    unfold elem_at. rewrite list_lookup_alter_eq.
    by destruct (heap w !! i).
Qed.

Lemma spawned_navigates t d :
  Forall (λ p, navigates p.2 = false) (spawned t d).
Proof. destruct t; repeat constructor. Qed.

(** A pending navigation with no navigation queued behind it is the last one
    to fire by its due time, and decides where the page goes. *)
Lemma run_timers_navigates (d : N) (link : nat) (u : string) fuel w :
  (total_weight (timers w) ≤ fuel)%nat →
  href (elem_at (heap w) link) = u →
  (∃ pre post, timers w = pre ++ (d, Navigate link) :: post
               ∧ Forall (λ p, navigates p.2 = false) post)
  ∨ (location w = u
     ∧ Forall (λ p, navigates p.2 = true → (d < p.1)%N) (timers w)) →
  location (run_timers fuel d w) = u.
Proof.
  revert w. induction fuel as [|fuel IH]; intros w Hfuel Hu Hcase.
  - assert (timers w = []) as Hnil by (apply total_weight_nil; lia).
    destruct Hcase as [(pre & post & Hts & _)|[Hloc _]]; [|done].
    rewrite Hnil in Hts. by destruct pre.
  - simpl. destruct (pick (timers w)) as [[[d' t] rest]|] eqn:Hp.
    + pose proof (fire_weight _ _ _ _ Hp) as Hw.
      apply pick_spec in Hp as (l1 & l2 & Hts & -> & H1 & H2). simpl in *.
      destruct (d' <=? d)%N eqn:Hd.
      * apply N.leb_le in Hd. apply IH.
        -- lia.
        -- by rewrite fire_href.
        -- rewrite (proj1 (fire_timers _ _ _ _)), fire_location.
           pose proof (spawned_navigates t (N.max (now w) d')) as Hsp.
           destruct Hcase as [(pre & post & Hts' & Hpost)|[Hloc Hnav]].
           ++ rewrite Hts in Hts'. symmetry in Hts'.
              apply app_cons_split in Hts'
                as [(m & -> & ->)|[(-> & [= <- <-] & ->)|(m & -> & ->)]].
              ** left. exists (l1 ++ m), (post ++ spawned t (N.max (now w) d')).
                 split; [by rewrite <- !app_assoc|]. by apply Forall_app.
              ** right. split; [done|]. rewrite !Forall_app. split_and!.
                 --- eapply Forall_impl; [exact H1|]. by intros p Hp _.
                 --- eapply Forall_impl; [exact Hpost|].
                     intros p Hp. by rewrite Hp.
                 --- constructor.
              ** left. apply Forall_app in Hpost as [Hm Hpost].
                 inversion Hpost as [|? ? Ht Hl2]; subst.
                 exists pre, (m ++ l2 ++ spawned t (N.max (now w) d')).
                 split; [by rewrite <- !app_assoc|].
                 rewrite !Forall_app. by split_and!.
           ++ right. rewrite Hts in Hnav.
              apply Forall_app in Hnav as [Hn1 Hn2].
              inversion Hn2 as [|? ? Ht Hn2']; subst. simpl in Ht.
              split.
              ** destruct t; try done. specialize (Ht eq_refl). lia.
              ** rewrite !Forall_app. split_and!; try done.
                 eapply Forall_impl; [exact Hsp|].
                 intros p Hp. by rewrite Hp.
      * apply N.leb_gt in Hd.
        destruct Hcase as [(pre & post & Hts' & _)|[Hloc _]]; [|done].
        assert ((d, Navigate link) ∈ l1 ++ (d', t) :: l2) as Hin.
        { rewrite <- Hts, Hts'. apply elem_of_app. right. by left. }
        rewrite Forall_forall in H1. rewrite Forall_forall in H2.
        apply elem_of_app in Hin as [Hin|Hin].
        -- specialize (H1 _ Hin). simpl in H1. lia.
        -- apply elem_of_cons in Hin as [[= <- <-]|Hin]; [lia|].
           specialize (H2 _ Hin). simpl in H2. lia.
    + apply pick_None in Hp.
      destruct Hcase as [(pre & post & Hts & _)|[Hloc _]]; [|done].
      rewrite Hp in Hts. by destruct pre.
Qed.

(** A timer that is not due yet stays in the queue. *)
Lemma run_timers_keeps (p : N * Task) limit fuel w :
  (limit < p.1)%N → p ∈ timers w → p ∈ timers (run_timers fuel limit w).
Proof.
  intros Hlim. revert w. induction fuel as [|fuel IH]; intros w Hin; [done|].
  simpl. destruct (pick (timers w)) as [[[d t] rest]|] eqn:Hp; [|done].
  destruct (d <=? limit)%N eqn:Hd; [|done]. apply N.leb_le in Hd.
  apply IH. rewrite (proj1 (fire_timers _ _ _ _)).
  apply pick_spec in Hp as (l1 & l2 & Hts & -> & _).
  rewrite Hts in Hin. apply elem_of_app. left.
  apply elem_of_app in Hin as [Hin|Hin]; [by apply elem_of_app; left|].
  apply elem_of_cons in Hin as [->|Hin]; [simpl in *; lia|].
  apply elem_of_app. by right.
Qed.

Lemma bind_establishes {A B} (I : World → Prop) (m : M A) (k : A → M B) :
  (∀ w, I (m w).2) → (∀ a, preserves I (k a)) → ∀ w, I (bind m k w).2.
Proof.
  intros Hm Hk w. unfold bind. specialize (Hm w).
  destruct (m w) as [[a|e] w']; [by apply Hk|done].
Qed.


Lemma href_snoc (h : list Element) message type (i : nat) :
  href (elem_at (h ++ [toast_element message type]) i) = href (elem_at h i).
Proof.
  unfold elem_at. destruct (decide (i < length h)) as [Hlt|Hge].
  - by rewrite lookup_app_l.
  - rewrite lookup_app_r by lia. rewrite (lookup_ge_None_2 h) by lia.
    by destruct (i - length h) as [|[|n]].
Qed.

Lemma onDeleteClick_run sc w link item title :
  closest_match (SClass "task-item") link w = Some item →
  descendant_matching (SClass "task-title") item w = Some title →
  onDeleteClick sc (TElem link) w
  = let yes := default false (head (answers w)) in
    let w1 := set_dialogs
                (dialogs w
                 ++ [Confirm (Text.delete_prompt sc
                                (textContent (elem_at (heap w) title))) yes])
                (set_answers (tail (answers w)) (set_prevented true w)) in
    (Done tt,
     if yes
     then exec (setTimeout (Navigate link) 500)
               (toasted (Text.deleted sc) "info" w1)
     else w1).
Proof.
  intros Hc Hd.
  unfold onDeleteClick, bind at 1, preventDefault, modify. queries.
  change (closest_match (SClass "task-item") link (set_prevented true w))
    with (closest_match (SClass "task-item") link w).
  rewrite Hc. queries.
  change (descendant_matching (SClass "task-title") item
            (set_prevented true w))
    with (descendant_matching (SClass "task-title") item w).
  rewrite Hd. queries. unfold confirm.
  change (answers (set_prevented true w)) with (answers w).
  destruct (default false (head (answers w))).
  - rewrite showToast_run. by destruct w.
  - by destruct w.
Qed.

(** The delete listener.  Whenever it runs it cancels the navigation of the link,
    even when the handler fails later.  When the link is inside a task item
    with a title, the user is asked with the title in the prompt, and the
    page stays where it is.  On a yes a notification is emitted and the
    navigation to the link's address is scheduled 500 ms later: after
    500 ms the page is at that address, and before, the navigation is
    still pending.  On a no nothing else is changed. *)
Theorem delete_click_asks_before_navigating
    (sc : Script) (w : World) (link : nat) :
  let r := onDeleteClick sc (TElem link) w in
  prevented r.2 = true
  ∧ ∀ item title,
      closest_match (SClass "task-item") link w = Some item →
      descendant_matching (SClass "task-title") item w = Some title →
      let name := textContent (elem_at (heap w) title) in
      let yes := default false (head (answers w)) in
      let toast := length (heap w) in
      r.1 = Done tt
      ∧ dialogs r.2 = dialogs w ++ [Confirm (Text.delete_prompt sc name) yes]
      ∧ location r.2 = location w
      ∧ if yes then
          heap r.2 = heap w ++ [toast_element (Text.deleted sc) "info"]
          ∧ doc r.2 = Node (body w) (children (doc w) ++ [Node toast []])
          ∧ timers r.2
            = timers w ++ [((now w + 100)%N, ToastShow toast);
                           ((now w + 3000)%N, ToastHide toast);
                           ((now w + 500)%N, Navigate link)]
          ∧ (∀ ms, (ms < 500)%N →
                   ((now w + 500)%N, Navigate link) ∈ timers (wait ms r.2))
          ∧ location (wait 500 r.2) = href (elem_at (heap w) link)
        else
          heap r.2 = heap w ∧ doc r.2 = doc w ∧ timers r.2 = timers w
          ∧ focus r.2 = focus w ∧ listeners r.2 = listeners w.
Proof.
  cbv zeta. split.
  - unfold onDeleteClick.
    apply (bind_establishes (λ w, prevented w = true)); [by intros []|].
    intros _. hoare; untouched.
  - intros item title Hc Hd.
    rewrite (onDeleteClick_run sc w link item title Hc Hd). cbv zeta.
    cbn [fst snd].
    destruct (default false (head (answers w))) eqn:Hyes.
    + destruct w. unfold exec, setTimeout, modify, toasted.
      cbn [fst snd heap doc now timers dialogs location set_timers
           set_dialogs set_answers set_prevented body root_id] in *.
      split_and!; try done.
      * by rewrite <- app_assoc.
      * intros ms Hms. unfold wait, run_until. cbn [now timers].
        match goal with
        | |- _ ∈ timers (set_now _ ?w1) =>
            change (timers (set_now (N.max (now w1) (now0 + ms)) w1))
              with (timers w1)
        end.
        apply run_timers_keeps; [simpl; lia|]. cbn [timers set_timers].
        apply elem_of_app. right. by left.
      * unfold wait, run_until. cbn [now timers].
        match goal with
        | |- location (set_now _ ?w1) = _ =>
            change (location (set_now (N.max (now w1) (now0 + 500)) w1))
              with (location w1)
        end.
        apply (run_timers_navigates _ link); [lia| |].
        -- cbn [heap set_timers]. apply href_snoc.
        -- left. cbn [timers set_timers].
           exists (timers0 ++ [((now0 + 100)%N, ToastShow (length heap0));
                               ((now0 + 3000)%N, ToastHide (length heap0))]),
                  [].
           split; [by rewrite <- !app_assoc|constructor].
    + by destruct w.
Qed.


(** * Events on the loaded page *)

(** ** What the initialisers leave of the markup *)


Lemma same_element_trans (e0 e1 e2 : Element) :
  same_element e0 e1 → same_element e1 e2 → same_element e0 e2.
Proof.
  intros (? & ? & ? & ? & ? & ? & ? & ? & Hc1) (? & ? & ? & ? & ? & ? & ? & ? & Hc2).
  repeat split; try congruence. intros c Hc. by rewrite Hc2, Hc1.
Qed.

Lemma same_markup_refl (w : World) : same_markup w w.
Proof. repeat split. Qed.

Lemma elem_at_alter (f : Element → Element) (h : list Element) (i j : nat) :
  elem_at (alter f i h) j = elem_at h j
  ∨ elem_at (alter f i h) j = f (elem_at h j).
Proof.
  destruct (decide (i = j)) as [->|Hne]; [|left; by apply elem_at_alter_ne].
  destruct (decide (j < length h)) as [Hlt|Hge].
  - right. by apply elem_at_alter_eq.
  - left. unfold elem_at. rewrite list_lookup_alter_eq.
    by rewrite (lookup_ge_None_2 h) by lia.
Qed.

Lemma same_markup_write (w0 : World) (f : Element → Element) (i : nat) :
  (∀ e, same_element e (f e)) → preserves (same_markup w0) (write f i).
Proof.
  intros Hf w (Hd & Hl & He). destruct w. unfold same_markup in *. run.
  cbn [heap doc] in *. rewrite length_alter. split_and!; try done.
  intros j. destruct (elem_at_alter f heap0 i j) as [-> | ->]; [done|].
  eapply same_element_trans; [apply He|apply Hf].
Qed.

Lemma any_suffix_ext (f g : nat → list nat → bool) (anc : list nat) :
  (∀ i a, f i a = g i a) → any_suffix f anc = any_suffix g anc.
Proof.
  intros Hfg. induction anc as [|a r IH]; simpl; [done|].
  by rewrite Hfg, IH.
Qed.

Section SameMarkup.
Context (w0 w : World) (Hsame : same_markup w0 w).

Lemma matches_same (s : selector) (i : nat) (anc : list nat) :
  mentions "weather-loaded" s = false →
  matches (heap w) s i anc = matches (heap w0) s i anc.
Proof.
  destruct Hsame as (_ & _ & He).
  revert i anc. induction s as [c|tag sub|a IHa b IHb|a IHa b IHb];
    intros i anc Hm; simpl in *.
  - destruct (He i) as (_ & _ & _ & _ & _ & _ & _ & _ & Hc). apply Hc.
    intros ->. by rewrite bool_decide_eq_true_2 in Hm.
  - destruct (He i) as (-> & _ & -> & _). done.
  - apply orb_false_iff in Hm as [Ha Hb]. rewrite IHb by done. f_equal.
    apply any_suffix_ext. intros j r. by apply IHa.
  - apply orb_false_iff in Hm as [Ha Hb]. by rewrite IHa, IHb.
Qed.

Lemma select_same (s : selector) (l : list (nat * list nat)) :
  mentions "weather-loaded" s = false →
  select (heap w) s l = select (heap w0) s l.
Proof.
  intros Hm. unfold select. f_equal. apply list_filter_iff.
  intros p. by rewrite matches_same.
Qed.

Lemma elements_matching_same (s : selector) :
  mentions "weather-loaded" s = false →
  elements_matching s w = elements_matching s w0.
Proof.
  intros Hm. unfold elements_matching. rewrite select_same by done.
  by rewrite (proj1 Hsame).
Qed.

Lemma element_by_id_same (s : string) :
  element_by_id s w = element_by_id s w0.
Proof.
  unfold element_by_id. rewrite (proj1 Hsame). f_equal.
  apply list_filter_iff. intros i.
  destruct Hsame as (_ & _ & He). destruct (He i) as (_ & -> & _). done.
Qed.

Lemma ancestors_same (i : nat) : ancestors w i = ancestors w0 i.
Proof. unfold ancestors. by rewrite (proj1 Hsame). Qed.

Lemma closest_in_same (s : selector) (chain : list nat) :
  mentions "weather-loaded" s = false →
  closest_in (heap w) s chain = closest_in (heap w0) s chain.
Proof.
  intros Hm. induction chain as [|a r IH]; simpl; [done|].
  by rewrite matches_same, IH.
Qed.

Lemma closest_match_same (s : selector) (i : nat) :
  mentions "weather-loaded" s = false →
  closest_match s i w = closest_match s i w0.
Proof.
  intros Hm. unfold closest_match.
  by rewrite closest_in_same, ancestors_same.
Qed.

Lemma descendant_matching_same (s : selector) (i : nat) :
  mentions "weather-loaded" s = false →
  descendant_matching s i w = descendant_matching s i w0.
Proof.
  intros Hm. unfold descendant_matching. rewrite (proj1 Hsame).
  destruct (subtree i (doc w0)) as [[j ks]|]; [|done].
  by rewrite select_same, ancestors_same.
Qed.

Lemma next_sibling_same (i : nat) : next_sibling i w = next_sibling i w0.
Proof. unfold next_sibling. by rewrite (proj1 Hsame). Qed.

End SameMarkup.

Lemma same_markup_trans (w0 w1 w2 : World) :
  same_markup w0 w1 → same_markup w1 w2 → same_markup w0 w2.
Proof.
  intros (Hd1 & Hl1 & He1) (Hd2 & Hl2 & He2).
  split_and!; [congruence|congruence|].
  intros i. eapply same_element_trans; [apply He1|apply He2].
Qed.

Lemma same_markup_alter (w : World) (f : Element → Element) (i : nat) :
  (∀ e, same_element e (f e)) → same_markup w (set_heap (alter f i) w).
Proof.
  intros Hf. apply (same_markup_write w f i Hf w), same_markup_refl.
Qed.

Lemma same_element_with_style (k v : string) (e : Element) :
  same_element e (with_style k v e).
Proof. by repeat split. Qed.

Lemma same_element_weather_loaded (e : Element) :
  same_element e (class_add "weather-loaded" e).
Proof.
  repeat split; try (unfold class_add; by destruct (bool_decide _)).
  intros c Hc. apply has_class_class_add_ne. congruence.
Qed.

Lemma preserves_observe (I : World → Prop) (i : nat) :
  (∀ os w, I w → I (set_observed os w)) → preserves I (observe i).
Proof.
  intros Ho w Hw. unfold observe, modify. cbn [snd].
  destruct (bool_decide _); [done|by apply Ho].
Qed.

(** ** What the initialisers register *)

Lemma exec_seq (m k : M unit) (w : World) :
  (m w).1 = Done tt → exec (m >> k) w = exec k (exec m w).
Proof.
  unfold exec, bind. destruct (m w) as [[[]|e] w']; simpl; [done|].
  intros [=].
Qed.

Lemma forEach_done {A} (f : A → M unit) (l : list A) (w : World) :
  (∀ a w', (f a w').1 = Done tt) → (forEach f l w).1 = Done tt.
Proof.
  intros Hf. revert w. induction l as [|a l IH]; intros w; simpl; [done|].
  unfold bind. specialize (Hf a w). destruct (f a w) as [[[]|e] w']; [|done].
  apply IH.
Qed.

Lemma forEach_register (f : nat → list (Target * string * Listener))
    (g : nat → M unit) (l : list nat) (w : World) :
  (∀ x w', g x w' = (Done tt, set_listeners (listeners w' ++ f x) w')) →
  forEach g l w = (Done tt, set_listeners (listeners w ++ flat_map f l) w).
Proof.
  intros Hg. revert w. induction l as [|a l IH]; intros w; simpl.
  - rewrite app_nil_r. by destruct w.
  - unfold bind. rewrite Hg, IH. destruct w. cbn [set_listeners listeners].
    by rewrite <- app_assoc.
Qed.

Lemma onLoad_run (sc : Script) (w : World) :
  (onLoad sc w).1 = Done tt
  ∧ listeners (exec (onLoad sc) w)
    = listeners w ++ [(TDocument, "keydown", OnKeydown)]
  ∧ same_markup w (exec (onLoad sc) w).
Proof. by destruct sc, w. Qed.

Lemma initNavbar_run (w : World) :
  (initNavbar w).1 = Done tt
  ∧ listeners (exec initNavbar w)
    = listeners w
      ++ [(TWindow, "scroll",
           OnScrollNavbar (head (elements_matching (SClass "navbar-custom")
                                                   w)))]
  ∧ same_markup w (exec initNavbar w).
Proof. by destruct w. Qed.

Lemma initAnimations_run (sc : Script) (w : World) :
  (initAnimations sc w).1 = Done tt
  ∧ listeners (exec (initAnimations sc) w) = listeners w
  ∧ same_markup w (exec (initAnimations sc) w).
Proof.
  split_and!.
  - unfold initAnimations. queries. apply forEach_done.
    intros el w'. by destruct sc, w'.
  - refine ((_ : preserves (λ w', listeners w' = listeners w)
                   (initAnimations sc)) w eq_refl).
    unfold initAnimations. hoare;
      first [apply preserves_observe; by intros os [] | untouched].
  - refine ((_ : preserves (same_markup w) (initAnimations sc)) w
              (same_markup_refl w)).
    unfold initAnimations. hoare; unfold setStyle;
      first [ apply preserves_observe; by intros os []
            | apply same_markup_write, same_element_with_style
            | untouched ].
Qed.

Lemma initFormValidation_run (w : World) :
  (initFormValidation w).1 = Done tt
  ∧ listeners (exec initFormValidation w)
    = listeners w
      ++ match element_by_id "addTaskForm" w with
         | Some form => [(TElem form, "submit", OnSubmitTask)]
         | None => []
         end
      ++ match element_by_id "task_name" w with
         | Some input => [(TElem input, "input", OnInputTask)]
         | None => []
         end
  ∧ same_markup w (exec initFormValidation w).
Proof.
  unfold exec, initFormValidation. queries. unfold addEventListener, modify.
  destruct (element_by_id "addTaskForm" w) as [form|]; cbn [fst snd].
  - change (element_by_id "task_name" (set_listeners _ w))
      with (element_by_id "task_name" w).
    destruct (element_by_id "task_name" w) as [input|]; destruct w;
      cbn [fst snd listeners set_listeners]; rewrite <- ?app_assoc;
      by split_and!.
  - destruct (element_by_id "task_name" w) as [input|]; destruct w;
      cbn [fst snd listeners set_listeners]; rewrite ?app_nil_r;
      by split_and!.
Qed.

Lemma initTaskInteractions_run (sc : Script) (w : World) :
  (initTaskInteractions sc w).1 = Done tt
  ∧ listeners (exec (initTaskInteractions sc) w)
    = listeners w
      ++ flat_map (λ task, [(TElem task, "mouseenter", OnMouseEnterTask);
                            (TElem task, "mouseleave", OnMouseLeaveTask)])
                  (elements_matching (SClass "task-item") w)
      ++ map (λ link, (TElem link, "click", OnToggleClick))
             (toggle_links sc w)
      ++ map (λ link, (TElem link, "click", OnDeleteClick)) (delete_links w)
  ∧ same_markup w (exec (initTaskInteractions sc) w).
Proof.
  assert (∀ (L : Listener) l w',
            forEach (λ link, addEventListener (TElem link) "click" L) l w'
            = (Done tt,
               set_listeners
                 (listeners w' ++ map (λ link, (TElem link, "click", L)) l)
                 w')) as Hclick.
  { intros L l w'.
    rewrite (forEach_register (λ link, [(TElem link, "click", L)]));
      [|done].
    assert (flat_map (λ link, [(TElem link, "click", L)]) l
            = map (λ link, (TElem link, "click", L)) l) as ->
      by (induction l as [|a l IH]; simpl; congruence).
    done. }
  unfold exec, initTaskInteractions, delete_links. queries.
  rewrite (forEach_register
             (λ task, [(TElem task, "mouseenter", OnMouseEnterTask);
                       (TElem task, "mouseleave", OnMouseLeaveTask)]));
    [|intros x []; run; by rewrite <- app_assoc].
  destruct sc; cbn [toggle_links]; queries; rewrite ?Hclick;
    destruct w; cbn [fst snd listeners set_listeners]; unfold elements_matching;
    cbn [heap doc]; rewrite <- ?app_assoc; by split_and!.
Qed.

Lemma initWeatherUpdates_run (sc : Script) (w : World) :
  (initWeatherUpdates sc w).1 = Done tt
  ∧ listeners (exec (initWeatherUpdates sc) w)
    = listeners w
      ++ match element_by_id "locationForm" w with
         | Some form => [(TElem form, "submit", OnLocationSubmit)]
         | None => []
         end
  ∧ same_markup w (exec (initWeatherUpdates sc) w).
Proof.
  unfold exec, initWeatherUpdates. queries.
  destruct (head (elements_matching (SClass "weather-card") w)) as [card|].
  - assert (∃ f, (∀ e, same_element e (f e))
                 ∧ match sc with
                   | MainJs => classList_add "weather-loaded" card
                   | MinimalJs => setStyle "animation" "fadeIn 0.8s ease" card
                   end w = (Done tt, set_heap (alter f card) w))
      as (f & Hf & ->).
    { destruct sc; eexists; (split; [|reflexivity]).
      - apply same_element_weather_loaded.
      - apply same_element_with_style. }
    pose proof (same_markup_alter w f card Hf) as Hsame.
    rewrite (element_by_id_same _ _ Hsame).
    destruct (element_by_id "locationForm" w) as [form|]; cbn [fst snd];
      split_and!; rewrite ?app_nil_r; try done; by destruct w.
  - destruct (element_by_id "locationForm" w) as [form|]; cbn [fst snd];
      split_and!; rewrite ?app_nil_r; try done;
      first [apply same_markup_refl | by destruct w].
Qed.

(** The listeners of a loaded page are the ones [registered] lists, and the
    initialisers leave the markup as it was parsed. *)
Lemma loaded_spec (sc : Script) (w0 : World) :
  listeners w0 = [] →
  listeners (loaded sc w0) = registered sc w0
  ∧ same_markup w0 (loaded sc w0).
Proof.
  intros Hnil. unfold loaded, onDOMContentLoaded.
  destruct (onLoad_run sc w0) as (_ & L1 & S1).
  set (w1 := exec (onLoad sc) w0) in *.
  assert (∃ w2, exec (match sc with
                      | MainJs => ret tt
                      | MinimalJs => initNavbar
                      end >> initAnimations sc >> initFormValidation
                      >> initTaskInteractions sc >> initWeatherUpdates sc) w1
                = exec (initAnimations sc >> initFormValidation
                        >> initTaskInteractions sc >> initWeatherUpdates sc)
                       w2
                ∧ same_markup w0 w2
                ∧ listeners w2
                  = [(TDocument, "keydown", OnKeydown)]
                    ++ match sc with
                       | MainJs => []
                       | MinimalJs =>
                           [(TWindow, "scroll",
                             OnScrollNavbar
                               (head (elements_matching
                                        (SClass "navbar-custom") w0)))]
                       end) as (w2 & -> & S2 & L2).
  { destruct sc.
    - exists w1. split_and!; [done|done|]. by rewrite L1, Hnil, app_nil_r.
    - destruct (initNavbar_run w1) as (D & L & S).
      exists (exec initNavbar w1). split_and!.
      + by apply exec_seq.
      + by eapply same_markup_trans.
      + rewrite L, L1, Hnil. by rewrite (elements_matching_same w0 w1). }
  destruct (initAnimations_run sc w2) as (D3 & L3 & S3).
  rewrite (exec_seq _ _ _ D3). set (w3 := exec (initAnimations sc) w2) in *.
  pose proof (same_markup_trans _ _ _ S2 S3) as S03.
  destruct (initFormValidation_run w3) as (D4 & L4 & S4).
  rewrite (exec_seq _ _ _ D4). set (w4 := exec initFormValidation w3) in *.
  pose proof (same_markup_trans _ _ _ S03 S4) as S04.
  destruct (initTaskInteractions_run sc w4) as (D5 & L5 & S5).
  rewrite (exec_seq _ _ _ D5).
  set (w5 := exec (initTaskInteractions sc) w4) in *.
  pose proof (same_markup_trans _ _ _ S04 S5) as S05.
  destruct (initWeatherUpdates_run sc w5) as (D6 & L6 & S6).
  split; [|by eapply same_markup_trans].
  rewrite L6, L5, L4, L3, L2.
  rewrite (element_by_id_same w0 w5 S05), !(element_by_id_same w0 w3 S03).
  rewrite (elements_matching_same w0 w4 S04) by done.
  assert (toggle_links sc w4 = toggle_links sc w0) as ->.
  { destruct sc; [|done]. by apply elements_matching_same. }
  assert (delete_links w4 = delete_links w0) as ->
    by by apply elements_matching_same.
  unfold registered. by rewrite <- !app_assoc.
Qed.

(** ** Which listeners an event reaches *)

Lemma fold_listeners (sc : Script) (tg : Target) (ty : string) (e : EventData)
    (ls : list (Target * string * Listener)) (w : World) :
  fold_left (λ w' (r : Target * string * Listener),
               if bool_decide (r.1.1 = tg ∧ r.1.2 = ty)
               then exec (handle sc r.2 tg e) w' else w') ls w
  = fold_left (λ w' l, exec (handle sc l tg e) w') (listening tg ty ls) w.
Proof.
  unfold listening. revert w. induction ls as [|r ls IH]; intros w; [done|].
  simpl. rewrite filter_cons.
  destruct (decide (r.1.1 = tg ∧ r.1.2 = ty)) as [Hr|Hr].
  - rewrite bool_decide_eq_true_2 by done. simpl. apply IH.
  - rewrite bool_decide_eq_false_2 by done. apply IH.
Qed.

Lemma dispatch_listening sc tg ty e w :
  dispatch sc tg ty e w
  = fold_left (λ w' l, exec (handle sc l tg e) w')
              (listening tg ty (listeners w)) (set_prevented false w).
Proof. unfold dispatch. apply fold_listeners. Qed.

Lemma run_listeners_listening sc tg ty e w :
  run_listeners sc tg ty e w
  = fold_left (λ w' l, exec (handle sc l tg e) w')
              (listening tg ty (listeners w)) w.
Proof. unfold run_listeners. apply fold_listeners. Qed.

Lemma listening_app tg ty (l1 l2 : list (Target * string * Listener)) :
  listening tg ty (l1 ++ l2) = listening tg ty l1 ++ listening tg ty l2.
Proof. unfold listening. by rewrite filter_app, map_app. Qed.

Lemma listening_other_type tg ty (l : list (Target * string * Listener)) :
  Forall (λ r, r.1.2 ≠ ty) l → listening tg ty l = [].
Proof.
  intros Hl. unfold listening. rewrite filter_none; [done|].
  eapply Forall_impl; [exact Hl|]. by intros r Hr [_ ?].
Qed.


Lemma listening_links (x : nat) (ty : string) (L : Listener)
    (links : list nat) :
  NoDup links →
  listening (TElem x) ty (map (λ link, (TElem link, ty, L)) links)
  = if bool_decide (x ∈ links) then [L] else [].
Proof.
  unfold listening. induction 1 as [|a links Ha Hnd IH]; [done|].
  simpl. rewrite filter_cons. simpl.
  destruct (decide (TElem a = TElem x ∧ ty = ty)) as [[[= ->] _]|Hne].
  - simpl. rewrite IH. rewrite (bool_decide_eq_false_2 (x ∈ links)) by done.
    rewrite bool_decide_eq_true_2; [done|by left].
  - rewrite IH. rewrite (bool_decide_ext (x ∈ a :: links) (x ∈ links));
      [done|].
    rewrite elem_of_cons. split; [|by right].
    intros [->|?]; [|done]. by destruct Hne.
Qed.

Lemma listening_cons tg ty (r : Target * string * Listener) l :
  listening tg ty (r :: l)
  = if decide (r.1.1 = tg ∧ r.1.2 = ty) then r.2 :: listening tg ty l
    else listening tg ty l.
Proof.
  unfold listening. rewrite filter_cons.
  by destruct (decide (r.1.1 = tg ∧ r.1.2 = ty)).
Qed.


Lemma NoDup_elements_matching (s : selector) (w : World) :
  NoDup (map fst (walk [] (doc w))) → NoDup (elements_matching s w).
Proof.
  intros Hnd. unfold elements_matching, select.
  eapply sublist_NoDup; [exact Hnd|]. apply fmap_sublist, sublist_filter.
Qed.

Lemma listening_option tg ty ty' (L : Listener) (o : option nat) :
  ty' ≠ ty →
  listening tg ty match o with
                  | Some x => [(TElem x, ty', L)]
                  | None => []
                  end = [].
Proof.
  intros Hne. apply listening_other_type. destruct o; by repeat constructor.
Qed.

Lemma listening_map tg ty ty' (L : Listener) (links : list nat) :
  ty' ≠ ty → listening tg ty (map (λ link, (TElem link, ty', L)) links) = [].
Proof.
  intros Hne. apply listening_other_type, Forall_fmap, Forall_forall.
  by intros x _.
Qed.

Lemma listening_hover tg ty (tasks : list nat) :
  ty ≠ "mouseenter" → ty ≠ "mouseleave" →
  listening tg ty
    (flat_map (λ task, [(TElem task, "mouseenter", OnMouseEnterTask);
                        (TElem task, "mouseleave", OnMouseLeaveTask)])
              tasks) = [].
Proof.
  intros H1 H2. apply listening_other_type, Forall_flat_map, Forall_forall.
  intros x _. repeat constructor; simpl; congruence.
Qed.

Lemma listening_scroll tg ty (sc : Script) (navbar : option nat) :
  ty ≠ "scroll" →
  listening tg ty match sc with
                  | MainJs => []
                  | MinimalJs => [(TWindow, "scroll", OnScrollNavbar navbar)]
                  end = [].
Proof.
  intros Hne. apply listening_other_type.
  destruct sc; repeat constructor; simpl; congruence.
Qed.

Lemma listening_keydown tg ty :
  ty ≠ "keydown" → listening tg ty [(TDocument, "keydown", OnKeydown)] = [].
Proof.
  intros Hne. apply listening_other_type. repeat constructor; simpl; congruence.
Qed.

(** Key presses are heard on the document only. *)
Lemma registered_keydown (sc : Script) (w0 : World) (tg : Target) :
  listening tg "keydown" (registered sc w0)
  = if decide (tg = TDocument) then [OnKeydown] else [].
Proof.
  unfold registered. rewrite !listening_app.
  rewrite listening_scroll, !listening_option, listening_hover,
    !listening_map by done.
  rewrite listening_cons. cbn [fst snd]. rewrite !app_nil_r.
  destruct (decide (tg = TDocument)) as [->|Hne].
  - by rewrite decide_True.
  - rewrite decide_False; [done|]. intros [? _]. by destruct Hne.
Qed.

(** Input events on the task field reach the counter and nothing else. *)
Lemma registered_input (sc : Script) (w0 : World) (field : nat) :
  element_by_id "task_name" w0 = Some field →
  listening (TElem field) "input" (registered sc w0) = [OnInputTask].
Proof.
  intros Hf. unfold registered. rewrite !listening_app, Hf.
  rewrite listening_keydown, listening_scroll, listening_hover,
    !listening_map by done.
  rewrite !(listening_option _ _ "submit") by done.
  rewrite listening_cons. cbn [fst snd]. by rewrite decide_True.
Qed.


(** A click on a delete link reaches its delete listener, after the toggle
    listener if main.js has wired the link as a toggle link too. *)
Lemma registered_click (sc : Script) (w0 : World) (link : nat) :
  NoDup (map fst (walk [] (doc w0))) →
  link ∈ delete_links w0 →
  listening (TElem link) "click" (registered sc w0)
  = (if bool_decide (link ∈ toggle_links sc w0) then [OnToggleClick] else [])
    ++ [OnDeleteClick].
Proof.
  intros Hnd Hin. unfold registered. rewrite !listening_app.
  rewrite listening_keydown, listening_scroll, !listening_option,
    listening_hover by done.
  rewrite !listening_links.
  - rewrite (bool_decide_eq_true_2 (link ∈ delete_links w0)) by done.
    by rewrite app_nil_r.
  - by apply NoDup_elements_matching.
  - destruct sc; [by apply NoDup_elements_matching|constructor].
Qed.

(** ** The claims about events, on the loaded page *)

Lemma element_by_id_in_range (s : string) (w : World) (i : nat) :
  s ≠ "" → element_by_id s w = Some i → i < length (heap w).
Proof.
  intros Hs Hi. unfold element_by_id in Hi.
  apply head_Some in Hi as [l Hl].
  assert (i ∈ filter (λ i, ident (elem_at (heap w) i) = s)
                     (map fst (walk [] (doc w)))) as Hin
    by (rewrite Hl; left).
  apply list_elem_of_filter in Hin as [Hid _].
  destruct (decide (i < length (heap w))) as [|Hge]; [done|].
  unfold elem_at in Hid. rewrite lookup_ge_None_2 in Hid by lia.
  simpl in Hid. congruence.
Qed.

Lemma elements_matching_class_in_range (c : string) (w : World) (i : nat) :
  i ∈ elements_matching (SClass c) w → i < length (heap w).
Proof.
  unfold elements_matching, select. rewrite list_elem_of_fmap.
  intros ([j anc] & -> & [Hm _]%list_elem_of_filter). simpl in *.
  destruct (decide (j < length (heap w))) as [|Hge]; [done|].
  unfold elem_at in Hm. rewrite lookup_ge_None_2 in Hm by lia.
  by simpl in Hm.
Qed.


Lemma sample_parsed (v : jsstr) (user : list bool) :
  parsed (Sample.parsed v user).
Proof.
  split; [done|]. apply (bool_decide_unpack _). by vm_compute.
Qed.





Lemma run_listeners_none sc tg ty e w :
  listening tg ty (listeners w) = [] → run_listeners sc tg ty e w = w.
Proof. intros H. by rewrite run_listeners_listening, H. Qed.

Lemma onKeydown_listeners (sc : Script) (e : EventData) (w : World) :
  listeners (exec (onKeydown sc e) w) = listeners w.
Proof.
  refine ((_ : preserves (λ w', listeners w' = listeners w) (onKeydown sc e))
            w eq_refl).
  hoare; untouched.
Qed.

(** A key press on any element of a loaded page reaches the listener on the
    document, once, and no other listener. *)
Lemma bubble_keydown (sc : Script) (w0 : World) (target : nat)
    (e : EventData) :
  listeners w0 = [] →
  bubble sc target "keydown" e (loaded sc w0)
  = exec (onKeydown sc e) (set_prevented false (loaded sc w0)).
Proof.
  intros Hnil. destruct (loaded_spec sc w0 Hnil) as [Hls _].
  unfold bubble.
  change (TElem target :: map TElem (ancestors (loaded sc w0) target)
          ++ [TDocument; TWindow])
    with (map TElem (target :: ancestors (loaded sc w0) target)
          ++ [TDocument; TWindow]).
  rewrite fold_left_app.
  assert (∀ l w, listeners w = registered sc w0 →
                 fold_left (λ w' tg, run_listeners sc tg "keydown" e w')
                           (map TElem l) w = w) as Hpath.
  { induction l as [|a l IH]; intros w Hw; [done|]. simpl.
    rewrite run_listeners_none; [by apply IH|].
    by rewrite Hw, registered_keydown. }
  rewrite Hpath by done. cbn [fold_left].
  assert (run_listeners sc TDocument "keydown" e
            (set_prevented false (loaded sc w0))
          = exec (onKeydown sc e) (set_prevented false (loaded sc w0))) as ->.
  { rewrite run_listeners_listening.
    change (listeners (set_prevented false (loaded sc w0)))
      with (listeners (loaded sc w0)).
    rewrite Hls, registered_keydown. by rewrite decide_True. }
  apply run_listeners_none.
  rewrite onKeydown_listeners.
  change (listeners (set_prevented false (loaded sc w0)))
    with (listeners (loaded sc w0)).
  by rewrite Hls, registered_keydown.
Qed.

(** [C6] On a loaded page, a key press with Ctrl or Cmd held and key "k",
    on whatever element has the focus (or on any other element), bubbles to
    the document listener: the default is suppressed; if the page has the
    task field, the field receives the focus and an informational
    notification is emitted; if it has not, nothing else happens. *)
Theorem shortcut_focuses_task_field_from_anywhere
    (sc : Script) (w0 : World) (target : nat) (e : EventData) :
  parsed w0 →
  ctrlKey e || metaKey e = true →
  key e = "k" →
  let w := loaded sc w0 in
  let w' := bubble sc target "keydown" e w in
  prevented w' = true
  ∧ match element_by_id "task_name" w0 with
    | Some input =>
        focus w' = Some input ∧ notified (Text.quick_add sc) "info" w w'
    | None => w' = set_prevented true w
    end.
Proof.
  intros [Hnil _] Hmod Hkey. cbv zeta.
  destruct (loaded_spec sc w0 Hnil) as [_ Hsame].
  rewrite bubble_keydown by done.
  destruct (keyboard_shortcut_focuses_task_field sc e
              (set_prevented false (loaded sc w0)) Hmod Hkey)
    as (_ & Hp & Hrest).
  split; [exact Hp|].
  change (element_by_id "task_name" (set_prevented false (loaded sc w0)))
    with (element_by_id "task_name" (loaded sc w0)) in Hrest.
  rewrite (element_by_id_same w0 _ Hsame) in Hrest.
  destruct (element_by_id "task_name" w0) as [input|]; exact Hrest.
Qed.

Lemma shortcut_focuses_task_field_from_anywhere_witness :
  let w0 := Sample.parsed (lit "ab") [] in
  let e := mkEvent true false "k" in
  let w := loaded MinimalJs w0 in
  let w' := bubble MinimalJs 7 "keydown" e w in
  parsed w0
  ∧ prevented w' = true
  ∧ match element_by_id "task_name" w0 with
    | Some input =>
        focus w' = Some input
        ∧ notified (Text.quick_add MinimalJs) "info" w w'
    | None => w' = set_prevented true w
    end.
Proof.
  exact (conj (sample_parsed (lit "ab") [])
           (shortcut_focuses_task_field_from_anywhere MinimalJs _ 7
              (mkEvent true false "k") (sample_parsed (lit "ab") [])
              eq_refl eq_refl)).
Defined.

Lemma surroundings_inv (a b : World) :
  surroundings a = surroundings b →
  doc a = doc b ∧ focus a = focus b ∧ location a = location b
  ∧ now a = now b ∧ timers a = timers b ∧ answers a = answers b
  ∧ dialogs a = dialogs b ∧ length (heap a) = length (heap b).
Proof. unfold surroundings. intros [= ? ? ? ? ? ? ? ? ? ?]. by split_and!. Qed.

Lemma surroundings_write (f : Element → Element) (i : nat) (w : World) :
  surroundings (write f i w).2 = surroundings w.
Proof. destruct w. unfold surroundings. run. by rewrite length_alter. Qed.

(** The toggle listener changes inline styles and nothing else. *)
Lemma onToggleClick_frame (this : Target) (w : World) :
  let w1 := exec (onToggleClick this) w in
  same_markup w w1
  ∧ surroundings w1 = surroundings w
  ∧ listeners w1 = listeners w
  ∧ prevented w1 = prevented w.
Proof.
  cbv zeta. split_and!.
  - refine ((_ : preserves (same_markup w) (onToggleClick this)) w
              (same_markup_refl w)).
    hoare; unfold setStyle; apply same_markup_write, same_element_with_style.
  - refine ((_ : preserves (λ w', surroundings w' = surroundings w)
                   (onToggleClick this)) w eq_refl).
    hoare; unfold setStyle; intros w' Hw';
      by rewrite surroundings_write.
  - refine ((_ : preserves (λ w', listeners w' = listeners w)
                   (onToggleClick this)) w eq_refl).
    hoare; untouched.
  - refine ((_ : preserves (λ w', prevented w' = prevented w)
                   (onToggleClick this)) w eq_refl).
    hoare; untouched.
Qed.

(** [C5] On a loaded page, a click on a link that matches the delete pattern
    always cancels the navigation of the link, even when the listener fails
    later.  When the link is inside a task item with a title, the user is
    asked with the title in the prompt, and the page stays where it is.  On
    a yes a notification is emitted and the navigation to the link's address
    is scheduled 500 ms later: after 500 ms the page is at that address,
    and before, the navigation is still pending.  On a no nothing else is
    done: the document, the timers, the focus and the listeners are as
    before, and so are the elements (unless main.js has wired the link as a
    toggle link too, whose listener has then dimmed the item). *)
Theorem click_on_delete_link_asks_before_navigating
    (sc : Script) (w0 : World) (link : nat) :
  parsed w0 →
  link ∈ delete_links w0 →
  let w := loaded sc w0 in
  let w' := dispatch sc (TElem link) "click" plain_event w in
  prevented w' = true
  ∧ ∀ item title,
      closest_match (SClass "task-item") link w0 = Some item →
      descendant_matching (SClass "task-title") item w0 = Some title →
      let name := textContent (elem_at (heap w0) title) in
      let yes := default false (head (answers w)) in
      let toast := length (heap w) in
      dialogs w' = dialogs w ++ [Confirm (Text.delete_prompt sc name) yes]
      ∧ location w' = location w
      ∧ if yes then
          heap w' !! toast = Some (toast_element (Text.deleted sc) "info")
          ∧ length (heap w') = S toast
          ∧ doc w' = Node (body w) (children (doc w) ++ [Node toast []])
          ∧ timers w'
            = timers w ++ [((now w + 100)%N, ToastShow toast);
                           ((now w + 3000)%N, ToastHide toast);
                           ((now w + 500)%N, Navigate link)]
          ∧ (∀ ms, (ms < 500)%N →
                   ((now w + 500)%N, Navigate link) ∈ timers (wait ms w'))
          ∧ location (wait 500 w') = href (elem_at (heap w0) link)
        else
          doc w' = doc w ∧ timers w' = timers w ∧ focus w' = focus w
          ∧ listeners w' = listeners w
          ∧ length (heap w') = length (heap w)
          ∧ (link ∉ toggle_links sc w0 → heap w' = heap w).
Proof.
  intros [Hnil Hnd] Hin. cbv zeta.
  destruct (loaded_spec sc w0 Hnil) as [Hls Hsame].
  rewrite dispatch_listening, Hls, (registered_click sc w0 link Hnd Hin).
  set (w := loaded sc w0) in *.
  assert (∃ wt,
            fold_left (λ w' l, exec (handle sc l (TElem link) plain_event) w')
              ((if bool_decide (link ∈ toggle_links sc w0)
                then [OnToggleClick] else []) ++ [OnDeleteClick])
              (set_prevented false w)
            = exec (onDeleteClick sc (TElem link)) wt
            ∧ same_markup w0 wt
            ∧ surroundings wt = surroundings w
            ∧ listeners wt = listeners w
            ∧ (link ∉ toggle_links sc w0 → heap wt = heap w))
    as (wt & -> & Hm & Hsur & Hlis & Hheap).
  { destruct (bool_decide (link ∈ toggle_links sc w0)) eqn:Ht.
    - exists (exec (onToggleClick (TElem link)) (set_prevented false w)).
      destruct (onToggleClick_frame (TElem link) (set_prevented false w))
        as (Hm & Hs & Hl & _).
      split_and!; try done.
      + eapply same_markup_trans; [|exact Hm]. exact Hsame.
      + intros Hn. by apply bool_decide_eq_true_1 in Ht.
    - exists (set_prevented false w). by split_and!. }
  unfold exec.
  apply surroundings_inv in Hsur
    as (Hdoc & Hfoc & Hloc & Hnow & Htim & Hans & Hdia & Hlen).
  destruct (delete_click_asks_before_navigating sc wt link) as [Hp Hrest].
  split; [exact Hp|].
  intros item title Hc Hd.
  rewrite <- (closest_match_same w0 wt Hm) in Hc by done.
  rewrite <- (descendant_matching_same w0 wt Hm) in Hd by done.
  specialize (Hrest item title Hc Hd). cbv zeta in Hrest.
  destruct Hm as (_ & _ & Hel).
  destruct (Hel title) as (_ & _ & _ & _ & _ & Htext & _).
  destruct (Hel link) as (_ & _ & _ & Hhref & _).
  rewrite Htext, Hhref, Hans, Hdia, Hloc, Hnow, Htim, Hlen, Hdoc in Hrest.
  unfold body in *. rewrite Hdoc in Hrest.
  destruct Hrest as (_ & Hdlg & Hl & Hcase).
  split; [exact Hdlg|]. split; [exact Hl|].
  destruct (default false (head (answers w))).
  - destruct Hcase as (Hh & Hdc & Ht & Hbefore & Hafter).
    split_and!; try done.
    + rewrite Hh, lookup_app_r by lia. by rewrite Hlen, Nat.sub_diag.
    + rewrite Hh, length_app. simpl. lia.
  - destruct Hcase as (Hh & Hdc & Ht & Hf & Hli).
    split_and!; try congruence.
    intros Hn. rewrite Hh. by apply Hheap.
Qed.

Lemma click_on_delete_link_asks_before_navigating_witness :
  let w0 := Sample.parsed (lit "abc") [true] in
  let w := loaded MainJs w0 in
  let w' := dispatch MainJs (TElem 10) "click" plain_event w in
  parsed w0
  ∧ 10 ∈ delete_links w0
  ∧ closest_match (SClass "task-item") 10 w0 = Some 6
  ∧ descendant_matching (SClass "task-title") 6 w0 = Some 7
  ∧ prevented w' = true
  ∧ location (wait 500 w') = "http://localhost:5000/delete_task/1".
Proof.
  assert (H2 : 10 ∈ delete_links (Sample.parsed (lit "abc") [true]))
    by (apply (bool_decide_unpack _); by vm_compute).
  assert (H3 : closest_match (SClass "task-item") 10
                 (Sample.parsed (lit "abc") [true]) = Some 6)
    by (vm_compute; reflexivity).
  assert (H4 : descendant_matching (SClass "task-title") 6
                 (Sample.parsed (lit "abc") [true]) = Some 7)
    by (vm_compute; reflexivity).
  assert (H5 : location
                 (wait 500
                    (dispatch MainJs (TElem 10) "click" plain_event
                       (loaded MainJs (Sample.parsed (lit "abc") [true]))))
               = "http://localhost:5000/delete_task/1")
    by (vm_compute; reflexivity).
  exact (conj (sample_parsed (lit "abc") [true])
           (conj H2 (conj H3 (conj H4
              (conj (proj1 (click_on_delete_link_asks_before_navigating
                              MainJs _ 10
                              (sample_parsed (lit "abc") [true]) H2))
                    H5))))).
Defined.

(** * Further properties of the scripts *)

(** ** The add-task form on the loaded page *)

Lemma element_by_id_ident (s : string) (w : World) (i : nat) :
  element_by_id s w = Some i → ident (elem_at (heap w) i) = s.
Proof.
  intros Hi. unfold element_by_id in Hi. apply head_Some in Hi as [l Hl].
  assert (i ∈ filter (λ i, ident (elem_at (heap w) i) = s)
                     (map fst (walk [] (doc w)))) as Hin
    by (rewrite Hl; left).
  by apply list_elem_of_filter in Hin as [Hid _].
Qed.

Lemma element_by_id_typed (s : string) (field : nat) (v : jsstr) (w : World) :
  element_by_id s (typed field v w) = element_by_id s w.
Proof.
  unfold element_by_id, typed. cbn [heap doc set_heap]. f_equal.
  apply list_filter_iff. intros i.
  by destruct (elem_at_alter (with_value v) (heap w) field i) as [-> | ->].
Qed.

(** A submit event on the add-task form reaches the validation and nothing
    else. *)
Lemma registered_submit (sc : Script) (w0 : World) (form : nat) :
  element_by_id "addTaskForm" w0 = Some form →
  listening (TElem form) "submit" (registered sc w0) = [OnSubmitTask].
Proof.
  intros Hf. unfold registered. rewrite !listening_app, Hf.
  rewrite listening_keydown, listening_scroll, listening_hover,
    !listening_map by done.
  rewrite (listening_option _ _ "input") by done.
  rewrite listening_cons. cbn [fst snd]. rewrite decide_True by done.
  destruct (element_by_id "locationForm" w0) as [lf|] eqn:Hlf; [|done].
  rewrite listening_cons, decide_False; [done|].
  cbn [fst snd]. intros [[= ->] _].
  apply element_by_id_ident in Hf, Hlf. congruence.
Qed.

(** What the submit listener leaves behind on a page that has the field and
    the button. *)
Lemma onSubmitTask_run (sc : Script) (w : World) (field button : nat) :
  element_by_id "task_name" w = Some field →
  element_by_id "submitTaskBtn" w = Some button →
  onSubmitTask sc w
  = (Done tt,
     if decide (length (trim (value (elem_at (heap w) field))) < 3) then
       set_focus (Some field)
         match sc with
         | MainJs =>
             set_dialogs (dialogs w ++ [Alert (Text.too_short sc)])
                         (set_prevented true w)
         | MinimalJs =>
             toasted (Text.too_short sc) "warning" (set_prevented true w)
         end
     else
       toasted Text.analyzing "info"
         (set_heap (alter (with_innerHTML Text.spinner) button)
            (set_heap (alter (with_disabled true) button) w))).
Proof.
  intros Hf Hb. unfold onSubmitTask. queries. rewrite Hf, Hb. queries.
  destruct (decide (length (trim (value (elem_at (heap w) field))) < 3)).
  - destruct sc.
    + by destruct w.
    + unfold preventDefault, modify. rewrite showToast_run. by destruct w.
  - unfold setDisabled, setInnerHTML, write, modify. cbn [fst snd].
    by rewrite showToast_run.
Qed.

(** The validation through the listener that [initFormValidation]
    registers: when the add-task form of a loaded page is submitted with the
    value [v] typed into the task field, a trimmed length under 3 cancels
    the submission, warns (by a toast in the minimal script, by a modal
    alert in main.js) and focuses the field; otherwise the submission goes
    on, the button is disabled and shows the spinner, and an informational
    notification is emitted. *)
Theorem submit_event_is_validated
    (sc : Script) (w0 : World) (form field button : nat) (v : jsstr) :
  parsed w0 →
  element_by_id "addTaskForm" w0 = Some form →
  element_by_id "task_name" w0 = Some field →
  element_by_id "submitTaskBtn" w0 = Some button →
  let w := typed field v (loaded sc w0) in
  let w' := dispatch sc (TElem form) "submit" plain_event w in
  if decide (length (trim v) < 3) then
    prevented w' = true
    ∧ focus w' = Some field
    ∧ match sc with
      | MinimalJs => notified (Text.too_short sc) "warning" w w'
      | MainJs =>
          dialogs w' = dialogs w ++ [Alert (Text.too_short sc)]
          ∧ heap w' = heap w ∧ doc w' = doc w ∧ timers w' = timers w
      end
  else
    prevented w' = false
    ∧ disabled (elem_at (heap w') button) = true
    ∧ innerHTML (elem_at (heap w') button) = Text.spinner
    ∧ notified Text.analyzing "info" w w'.
Proof.
  intros [Hnil _] Hform Hfield Hbutton. cbv zeta.
  destruct (loaded_spec sc w0 Hnil) as [Hls Hsame].
  assert (field < length (heap w0)) as Hfr
    by by apply (element_by_id_in_range "task_name").
  assert (button < length (heap w0)) as Hbr
    by by apply (element_by_id_in_range "submitTaskBtn").
  pose proof Hsame as (Hdoc & Hlen & Hel).
  rewrite dispatch_listening.
  change (listeners (typed field v (loaded sc w0)))
    with (listeners (loaded sc w0)).
  rewrite Hls, (registered_submit sc w0 form Hform). cbn [fold_left handle].
  set (wp := set_prevented false (typed field v (loaded sc w0))).
  assert (∀ s, element_by_id s wp = element_by_id s w0) as Hid.
  { intros s. change (element_by_id s wp)
      with (element_by_id s (typed field v (loaded sc w0))).
    by rewrite element_by_id_typed, (element_by_id_same w0 _ Hsame). }
  assert (value (elem_at (heap wp) field) = v) as Hv.
  { unfold wp, typed. cbn [heap set_heap set_prevented].
    by rewrite elem_at_alter_eq by lia. }
  assert (button < length (heap wp)) as Hbp.
  { unfold wp, typed. cbn [heap set_heap set_prevented].
    rewrite length_alter. lia. }
  unfold exec. rewrite (onSubmitTask_run sc wp field button)
    by (by rewrite Hid).
  rewrite Hv. cbn [snd].
  destruct (decide (length (trim v) < 3)).
  - destruct sc; [done|].
    split_and!; try done.
    apply (toasted_notified (Text.too_short MinimalJs) "warning"
             (set_prevented true wp)).
  - assert (prevented wp = false) as Hpf by done.
    change (notified Text.analyzing "info" (typed field v (loaded sc w0)))
      with (notified Text.analyzing "info" wp).
    clear Hid Hv. clearbody wp. destruct wp.
    cbn [toasted set_heap heap doc now timers prevented] in *.
    split_and!; try done.
    + rewrite elem_at_app_l by (by rewrite !length_alter).
      rewrite elem_at_alter_eq by (by rewrite length_alter).
      by rewrite elem_at_alter_eq.
    + rewrite elem_at_app_l by (by rewrite !length_alter).
      by rewrite elem_at_alter_eq by (by rewrite length_alter).
    + unfold notified, toasted, set_heap, body.
      cbn [heap doc now timers]. split_and!; try done.
      * rewrite lookup_app_r by (by rewrite !length_alter).
        by rewrite !length_alter, Nat.sub_diag.
      * rewrite length_app, !length_alter. simpl. lia.
      * by rewrite !length_alter.
      * by rewrite !length_alter.
Qed.

Lemma submit_event_is_validated_witness :
  let w0 := Sample.parsed [] [] in
  let v := lit "  ab  " in
  let w := typed 3 v (loaded MinimalJs w0) in
  let w' := dispatch MinimalJs (TElem 2) "submit" plain_event w in
  parsed w0
  ∧ element_by_id "addTaskForm" w0 = Some 2
  ∧ element_by_id "task_name" w0 = Some 3
  ∧ element_by_id "submitTaskBtn" w0 = Some 5
  ∧ if decide (length (trim v) < 3) then
      prevented w' = true
      ∧ focus w' = Some 3
      ∧ notified (Text.too_short MinimalJs) "warning" w w'
    else
      prevented w' = false
      ∧ disabled (elem_at (heap w') 5) = true
      ∧ innerHTML (elem_at (heap w') 5) = Text.spinner
      ∧ notified Text.analyzing "info" w w'.
Proof.
  assert (H2 : element_by_id "addTaskForm" (Sample.parsed [] []) = Some 2)
    by (vm_compute; reflexivity).
  assert (H3 : element_by_id "task_name" (Sample.parsed [] []) = Some 3)
    by (vm_compute; reflexivity).
  assert (H4 : element_by_id "submitTaskBtn" (Sample.parsed [] []) = Some 5)
    by (vm_compute; reflexivity).
  exact (conj (sample_parsed [] [])
           (conj H2 (conj H3 (conj H4
              (submit_event_is_validated MinimalJs _ 2 3 5 (lit "  ab  ")
                 (sample_parsed [] []) H2 H3 H4))))).
Defined.

(** ** The toggle link on the loaded page *)






(** ** Scrolling, other keys, the location form *)

Lemma registered_scroll (sc : Script) (w0 : World) :
  listening TWindow "scroll" (registered sc w0)
  = match sc with
    | MainJs => []
    | MinimalJs =>
        [OnScrollNavbar (head (elements_matching (SClass "navbar-custom")
                                                 w0))]
    end.
Proof.
  unfold registered. rewrite !listening_app.
  rewrite listening_keydown, !listening_option, listening_hover,
    !listening_map by done.
  destruct sc; [done|]. rewrite listening_cons. cbn [fst snd].
  by rewrite decide_True.
Qed.

Lemma head_elements_matching_in_range (c : string) (w : World) (i : nat) :
  head (elements_matching (SClass c) w) = Some i → i < length (heap w).
Proof.
  intros [l Hl]%head_Some. apply (elements_matching_class_in_range c).
  rewrite Hl. left.
Qed.

(** In the minimal script the navbar of a loaded page carries the class
    [scrolled] after a scroll exactly when the page is scrolled by more than
    50 pixels, whatever it carried before, and keeps its other classes;
    main.js does not react to scrolling. *)
Theorem scrolling_marks_the_navbar (sc : Script) (w0 : World) (y : N) :
  parsed w0 →
  let w := loaded sc w0 in
  let w' := happen sc (Scrolls y) w in
  match sc with
  | MainJs => heap w' = heap w ∧ doc w' = doc w ∧ timers w' = timers w
  | MinimalJs =>
      ∀ navbar,
        head (elements_matching (SClass "navbar-custom") w0) = Some navbar →
        has_class "scrolled" (elem_at (heap w') navbar) = (50 <? y)%N
        ∧ ∀ c, c ≠ "scrolled" →
               has_class c (elem_at (heap w') navbar)
               = has_class c (elem_at (heap w) navbar)
  end.
Proof.
  intros [Hnil _]. cbv zeta.
  destruct (loaded_spec sc w0 Hnil) as [Hls (Hdoc & Hlen & Hel)].
  unfold happen. rewrite dispatch_listening. cbn [listeners].
  rewrite Hls, registered_scroll. destruct sc; [done|].
  intros navbar Hnav. rewrite Hnav. cbn [fold_left handle].
  apply head_elements_matching_in_range in Hnav. rewrite <- Hlen in Hnav.
  revert Hnav. generalize (loaded MinimalJs w0). intros [] Hnav.
  unfold exec, onScrollNavbar. queries. cbn [scrollY set_prevented].
  cbn [heap] in Hnav.
  destruct (50 <? y)%N; run; rewrite elem_at_alter_eq by done; split.
  - apply has_class_class_add.
  - intros c Hc. by apply has_class_class_add_ne.
  - apply has_class_class_remove.
  - intros c Hc. by apply has_class_class_remove_ne.
Qed.

Lemma scrolling_marks_the_navbar_witness :
  let w0 := Sample.parsed [] [] in
  let w := loaded MinimalJs w0 in
  parsed w0
  ∧ head (elements_matching (SClass "navbar-custom") w0) = Some 1
  ∧ has_class "scrolled" (elem_at (heap (happen MinimalJs (Scrolls 51) w)) 1)
    = true
  ∧ has_class "scrolled" (elem_at (heap (happen MinimalJs (Scrolls 50) w)) 1)
    = false.
Proof.
  assert (H2 : head (elements_matching (SClass "navbar-custom")
                       (Sample.parsed [] [])) = Some 1)
    by (vm_compute; reflexivity).
  exact (conj (sample_parsed [] [])
           (conj H2
              (conj (proj1 (scrolling_marks_the_navbar MinimalJs _ 51
                              (sample_parsed [] []) 1 H2))
                    (proj1 (scrolling_marks_the_navbar MinimalJs _ 50
                              (sample_parsed [] []) 1 H2))))).
Defined.

(** A key press that is not Ctrl+K or Cmd+K, the upper-case K included,
    changes nothing on a loaded page and keeps its default. *)
Theorem other_keys_are_left_alone
    (sc : Script) (w0 : World) (target : nat) (e : EventData) :
  parsed w0 →
  (ctrlKey e || metaKey e) && bool_decide (key e = "k") = false →
  let w := loaded sc w0 in
  bubble sc target "keydown" e w = set_prevented false w.
Proof.
  intros [Hnil _] He. cbv zeta. rewrite bubble_keydown by done.
  unfold exec, onKeydown. by rewrite He.
Qed.

Lemma other_keys_are_left_alone_witness :
  let w0 := Sample.parsed [] [] in
  let w := loaded MainJs w0 in
  parsed w0
  ∧ bubble MainJs 3 "keydown" (mkEvent true false "K") w
    = set_prevented false w.
Proof.
  exact (conj (sample_parsed [] [])
           (other_keys_are_left_alone MainJs _ 3 (mkEvent true false "K")
              (sample_parsed [] []) eq_refl)).
Defined.

Lemma registered_submit_location (sc : Script) (w0 : World) (form : nat) :
  element_by_id "locationForm" w0 = Some form →
  listening (TElem form) "submit" (registered sc w0) = [OnLocationSubmit].
Proof.
  intros Hf. unfold registered. rewrite !listening_app, Hf.
  rewrite listening_keydown, listening_scroll, listening_hover,
    !listening_map by done.
  rewrite (listening_option _ _ "input") by done.
  rewrite (listening_cons _ _ (TElem form, "submit", OnLocationSubmit)).
  cbn [fst snd]. rewrite decide_True by done.
  destruct (element_by_id "addTaskForm" w0) as [tf|] eqn:Htf; [|done].
  rewrite listening_cons, decide_False; [done|].
  cbn [fst snd]. intros [[= ->] _].
  apply element_by_id_ident in Hf, Htf. congruence.
Qed.

(** Submitting the location form of a loaded page emits an informational
    notification and lets the submission go on: no validation, no
    cancellation. *)
Theorem location_submit_only_notifies
    (sc : Script) (w0 : World) (form : nat) :
  parsed w0 →
  element_by_id "locationForm" w0 = Some form →
  let w := loaded sc w0 in
  let w' := dispatch sc (TElem form) "submit" plain_event w in
  prevented w' = false
  ∧ notified Text.updating_location "info" w w'
  ∧ focus w' = focus w ∧ dialogs w' = dialogs w ∧ location w' = location w.
Proof.
  intros [Hnil _] Hf. cbv zeta.
  destruct (loaded_spec sc w0 Hnil) as [Hls _].
  rewrite dispatch_listening, Hls, (registered_submit_location sc w0 form Hf).
  cbn [fold_left handle]. unfold exec, onLocationSubmit.
  rewrite showToast_run. cbn [snd]. split_and!; try done.
  apply (toasted_notified Text.updating_location "info"
           (set_prevented false (loaded sc w0))).
Qed.

Lemma location_submit_only_notifies_witness :
  let w0 := mkWorld [Sample.el "body" "" []; Sample.el "form" "locationForm" []]
                    (Node 0 [Node 1 []]) None "http://localhost:5000/" 0 0
                    [] [] [] [] [] false in
  let w := loaded MainJs w0 in
  let w' := dispatch MainJs (TElem 1) "submit" plain_event w in
  parsed w0
  ∧ element_by_id "locationForm" w0 = Some 1
  ∧ prevented w' = false
  ∧ notified Text.updating_location "info" w w'
  ∧ focus w' = focus w ∧ dialogs w' = dialogs w ∧ location w' = location w.
Proof.
  set (w0 := mkWorld [Sample.el "body" "" [];
                      Sample.el "form" "locationForm" []]
                     (Node 0 [Node 1 []]) None "http://localhost:5000/" 0 0
                     [] [] [] [] [] false).
  assert (H1 : parsed w0).
  { split; [done|]. apply (bool_decide_unpack _). by vm_compute. }
  assert (H2 : element_by_id "locationForm" w0 = Some 1)
    by (vm_compute; reflexivity).
  exact (conj H1 (conj H2 (location_submit_only_notifies MainJs w0 1 H1 H2))).
Defined.

(** ** Loading, and pages that lack an element *)




(** The listeners that reach for an element without a check fail on a page
    that lacks it, and the failure changes what the user gets: a form whose
    field is missing is submitted unvalidated; typing into a field that has
    no element after it leaves no feedback; a delete link outside a task
    item is dead, for its navigation is cancelled before the listener
    fails, and nothing is asked. *)
Theorem missing_elements_fail_silently (sc : Script) (w0 : World) :
  parsed w0 →
  let w := loaded sc w0 in
  (∀ form,
     element_by_id "addTaskForm" w0 = Some form →
     element_by_id "task_name" w0 = None →
     handle sc OnSubmitTask (TElem form) plain_event (set_prevented false w)
     = (Raise TypeError, set_prevented false w)
     ∧ dispatch sc (TElem form) "submit" plain_event w
       = set_prevented false w)
  ∧ (∀ field v,
       element_by_id "task_name" w0 = Some field →
       next_sibling field w0 = None →
       dispatch sc (TElem field) "input" plain_event (typed field v w)
       = set_prevented false (typed field v w))
  ∧ (∀ link,
       link ∈ delete_links w0 →
       link ∉ toggle_links sc w0 →
       closest_match (SClass "task-item") link w0 = None →
       dispatch sc (TElem link) "click" plain_event w
       = set_prevented true w).
Proof.
  intros [Hnil Hnd]. cbv zeta.
  destruct (loaded_spec sc w0 Hnil) as [Hls Hsame].
  split_and!.
  - intros form Hform Hfield.
    assert (onSubmitTask sc (set_prevented false (loaded sc w0))
            = (Raise TypeError, set_prevented false (loaded sc w0))) as Hrun.
    { unfold onSubmitTask. queries.
      change (element_by_id "task_name" (set_prevented false (loaded sc w0)))
        with (element_by_id "task_name" (loaded sc w0)).
      by rewrite (element_by_id_same w0 _ Hsame), Hfield. }
    split; [exact Hrun|].
    rewrite dispatch_listening, Hls, (registered_submit sc w0 form Hform).
    cbn [fold_left handle]. unfold exec. by rewrite Hrun.
  - intros field v Hfield Hsib.
    rewrite dispatch_listening.
    change (listeners (typed field v (loaded sc w0)))
      with (listeners (loaded sc w0)).
    rewrite Hls, (registered_input sc w0 field Hfield).
    cbn [fold_left handle]. unfold exec, onInputTask. queries.
    change (next_sibling field
              (set_prevented false (typed field v (loaded sc w0))))
      with (next_sibling field (loaded sc w0)).
    by rewrite (next_sibling_same w0 _ Hsame), Hsib.
  - intros link Hin Hout Hc.
    rewrite dispatch_listening, Hls, (registered_click sc w0 link Hnd Hin).
    rewrite bool_decide_eq_false_2 by done.
    cbn [app fold_left handle]. unfold exec, onDeleteClick.
    unfold bind at 1. unfold preventDefault, modify. queries.
    change (closest_match (SClass "task-item") link
              (set_prevented true (set_prevented false (loaded sc w0))))
      with (closest_match (SClass "task-item") link (loaded sc w0)).
    by rewrite (closest_match_same w0 _ Hsame), Hc.
Qed.

Lemma missing_elements_fail_silently_witness :
  let w0 := mkWorld [Sample.el "body" "" [];
                     Sample.el "form" "addTaskForm" []]
                    (Node 0 [Node 1 []]) None "http://localhost:5000/" 0 0
                    [] [] [] [] [] false in
  let w := loaded MainJs w0 in
  parsed w0
  ∧ element_by_id "addTaskForm" w0 = Some 1
  ∧ element_by_id "task_name" w0 = None
  ∧ dispatch MainJs (TElem 1) "submit" plain_event w = set_prevented false w.
Proof.
  set (w0 := mkWorld [Sample.el "body" "" [];
                      Sample.el "form" "addTaskForm" []]
                     (Node 0 [Node 1 []]) None "http://localhost:5000/" 0 0
                     [] [] [] [] [] false).
  assert (H1 : parsed w0).
  { split; [done|]. apply (bool_decide_unpack _). by vm_compute. }
  assert (H2 : element_by_id "addTaskForm" w0 = Some 1)
    by (vm_compute; reflexivity).
  assert (H3 : element_by_id "task_name" w0 = None)
    by (vm_compute; reflexivity).
  exact (conj H1 (conj H2 (conj H3
           (proj2 (proj1 (missing_elements_fail_silently MainJs w0 H1)
                         1 H2 H3))))).
Defined.

(** * Further properties of the scripts *)

(** ** Invariants that read the timer queue *)

(** As [happen_all_stable], for an invariant that may depend on the clock
    and on the queue: it has to survive each turn of the timer loop. *)
Section Evolves.
Context (sc : Script) (I : World → Prop).
Hypothesis I_prevented : ∀ b w, I w → I (set_prevented b w).
Hypothesis I_now : ∀ t w, (now w ≤ t)%N → I w → I (set_now t w).
Hypothesis I_scroll : ∀ y w,
  I w → I (mkWorld (heap w) (doc w) (focus w) (location w) y (now w)
                   (timers w) (listeners w) (observed w) (answers w)
                   (dialogs w) (prevented w)).
Hypothesis I_handle : ∀ l this e, preserves I (handle sc l this e).
Hypothesis I_fire : ∀ d t rest w,
  I w → pick (timers w) = Some ((d, t), rest) → I (fire d t rest w).
Hypothesis I_observer : ∀ entries w, I w → I (deliver entries w).

Lemma run_timers_evolves fuel limit w : I w → I (run_timers fuel limit w).
Proof.
  revert w. induction fuel as [|fuel IH]; intros w Hw; simpl; [done|].
  destruct (pick (timers w)) as [[[d t] rest]|] eqn:Hp; [|done].
  destruct (d <=? limit)%N; [|done]. apply IH. by apply I_fire.
Qed.

Lemma happen_evolves h w : I w → I (happen sc h w).
Proof.
  intros Hw. destruct h; simpl.
  - by apply dispatch_stable.
  - by apply I_observer.
  - by apply dispatch_stable, I_scroll.
  - unfold wait, run_until. apply I_now; [lia|].
    by apply run_timers_evolves.
Qed.

Lemma happen_all_evolves hs w : I w → I (happen_all sc hs w).
Proof. apply fold_left_invariant. intros a b. apply happen_evolves. Qed.

End Evolves.

(** ** No navigation without a confirmation *)

Lemma stays_toasted u message type w :
  stays u w → stays u (toasted message type w).
Proof.
  intros (Hl & Ha & Ht). destruct w. unfold stays, declining, toasted in *.
  cbn [location answers timers] in *. split_and!; try done.
  apply Forall_app. split; [done|]. by repeat constructor.
Qed.

Lemma stays_handle sc u l this e : preserves (stays u) (handle sc l this e).
Proof.
  assert (∀ message type, preserves (stays u) (showToast message type)) as Hst
    by (intros; apply preserves_showToast; intros ?; apply stays_toasted).
  destruct l; cbn [handle];
    try (destruct sc; hoare; first [apply Hst | untouched]).
  intros w (Hl & Ha & Ht). unfold onDeleteClick, exec.
  unfold bind at 1. unfold preventDefault, modify.
  set (w1 := set_prevented true w).
  assert (stays u w1) as H1 by (by destruct w).
  assert (default false (head (answers w1)) = false) as Hno.
  { destruct H1 as (_ & Ha1 & _). destruct (answers w1) as [|a r]; [done|].
    by inversion Ha1. }
  clearbody w1. clear w Hl Ha Ht. queries.
  destruct this as [| |i]; try done.
  destruct (closest_match _ i w1); [|done].
  destruct (descendant_matching _ _ w1); [|done].
  unfold confirm. rewrite Hno. destruct H1 as (Hl & Ha & Ht).
  assert (Forall (λ a, a = false) (tail (answers w1))) as Ha'
    by (destruct Ha; [constructor|done]).
  by destruct w1.
Qed.

Lemma fire_answers d t rest w : answers (fire d t rest w) = answers w.
Proof.
  unfold fire. destruct t; cbn [run_task].
  - by destruct w.
  - by destruct w.
  - unfold exec, removeChild_body. by destruct (bool_decide _), w.
  - by destruct w.
  - unfold exec, animateWeatherEmoji. queries.
    by destruct (head (elements_matching _ _)), w.
Qed.

Lemma stays_fire u d t rest w :
  stays u w → pick (timers w) = Some ((d, t), rest) →
  stays u (fire d t rest w).
Proof.
  intros (Hl & Ha & Ht) (l1 & l2 & Hts & -> & _)%pick_spec.
  rewrite Hts in Ht. apply Forall_app in Ht as [Ht1 Ht2].
  apply Forall_cons in Ht2 as [Hnav Ht2]. cbn [snd] in Hnav.
  unfold stays, declining.
  rewrite fire_location, fire_answers, (proj1 (fire_timers _ _ _ _)).
  split_and!; [by destruct t|done|].
  rewrite !Forall_app. split_and!; try done. apply spawned_navigates.
Qed.

Lemma stays_deliver u entries w : stays u w → stays u (deliver entries w).
Proof.
  intros Hw. unfold deliver.
  refine ((_ : preserves (stays u) (onIntersection _)) w Hw).
  unfold onIntersection. hoare; untouched.
Qed.

(** Whatever happens to the page, and whatever is clicked, the address
    stays as long as the user confirms nothing: a page on which no
    navigation is pending, and whose user declines every confirmation, is at
    the same address after any events, observer reports, scrolling and
    waiting; and still no navigation is pending. *)
Theorem no_navigation_without_confirmation (sc : Script)
    (hs : list Happening) (w : World) :
  declining w →
  location (happen_all sc hs w) = location w
  ∧ declining (happen_all sc hs w).
Proof.
  intros Hd.
  apply (happen_all_evolves sc (stays (location w))).
  - intros b w' H. destruct w'. exact H.
  - intros t w' _ H. destruct w'. exact H.
  - intros y w' H. destruct w'. exact H.
  - intros. apply stays_handle.
  - intros. by apply stays_fire.
  - intros. by apply stays_deliver.
  - by split.
Qed.

Lemma no_navigation_without_confirmation_witness :
  let w := loaded MainJs (Sample.parsed [] [false]) in
  let hs := [Fires (TElem 10) "click" plain_event; Passes 1000] in
  declining w
  ∧ location (happen_all MainJs hs w) = location w
  ∧ declining (happen_all MainJs hs w).
Proof.
  set (w := loaded MainJs (Sample.parsed [] [false])).
  assert (H : declining w) by (vm_compute; by repeat constructor).
  exact (conj H (no_navigation_without_confirmation MainJs
                   [Fires (TElem 10) "click" plain_event; Passes 1000] w H)).
Defined.

(** ** The weather emoji of main.js *)







(** ** The animated elements at load *)







(** ** The risk levels of main.js *)






Lemma paint_blank : paint (blank "") = blank "".
Proof. reflexivity. Qed.





